(** * The manifest proxy of Flux TV (server.ts, [/api/proxy-manifest])

    A shallow embedding of the Express handler that fetches an HLS manifest
    or a media segment and rewrites every reference of a manifest so that it
    is fetched through the proxy again.

    - JavaScript strings are sequences of UTF-16 code units: [list N].
    - The platform functions the handler calls ([String.prototype.trim],
      [startsWith], [includes], [split], [join], [substring], [lastIndexOf],
      [replace] with the handler's regular expression, [encodeURIComponent],
      [decodeURIComponent]) are written after ECMA-262.
    - [fetch], [new URL] and the body readers are the environment of the
      handler: they are parameters, and they may throw.
    - The Express response object is the record of the calls the handler
      makes on it: [res.status], [res.set], [res.send]; the body Express
      sends for them is given by [Express.wire]. *)

From Stdlib Require Import NArith ZArith List String Ascii Lia Bool DecimalString.
From Stdlib Require Import Sorted Permutation.
From stdpp Require Import gmap strings.
From Equations Require Import Equations.
Import ListNotations.

Local Open Scope N_scope.
Local Open Scope list_scope.

(** ** JavaScript strings *)

Abbreviation jsstring := (list N).

(** A string literal of the source: its characters as code units. *)
Definition js (s : string) : jsstring :=
  List.map N_of_ascii (list_ascii_of_string s).

Module JSString.

(** [s.startsWith(p)] *)
Fixpoint startsWith (p s : jsstring) : bool :=
  match p, s with
  | [], _ => true
  | _ :: _, [] => false
  | a :: p', b :: s' => (a =? b) && startsWith p' s'
  end.

(** [s.includes(p)]: [p] occurs at some index of [s]. *)
Fixpoint includes (p s : jsstring) : bool :=
  startsWith p s ||
  match s with
  | [] => false
  | _ :: s' => includes p s'
  end.

(** WhiteSpace and LineTerminator code points, the ones [trim] strips. *)
Definition isWhiteSpace (c : N) : bool :=
  ((9 <=? c) && (c <=? 13)) || (c =? 32) || (c =? 160) || (c =? 5760)
  || ((8192 <=? c) && (c <=? 8202)) || (c =? 8232) || (c =? 8233)
  || (c =? 8239) || (c =? 8287) || (c =? 12288) || (c =? 65279).

Fixpoint trimStart (s : jsstring) : jsstring :=
  match s with
  | [] => []
  | c :: s' => if isWhiteSpace c then trimStart s' else s
  end.

Definition trimEnd (s : jsstring) : jsstring := rev (trimStart (rev s)).

(** [s.trim()] *)
Definition trim (s : jsstring) : jsstring := trimEnd (trimStart s).

(** [s.split('\n')]: never empty, the last element is what follows the
    last line feed. *)
Fixpoint split_lf (s : jsstring) : list jsstring :=
  match s with
  | [] => [[]]
  | c :: s' =>
      if c =? 10 then [] :: split_lf s'
      else match split_lf s' with
           | [] => [[c]]
           | l :: ls => (c :: l) :: ls
           end
  end.

(** [ls.join('\n')] *)
Fixpoint join_lf (ls : list jsstring) : jsstring :=
  match ls with
  | [] => []
  | [l] => l
  | l :: ls' => l ++ 10 :: join_lf ls'
  end.

(** [s.lastIndexOf(c)] for a one-character [c]: the largest index, or -1. *)
Fixpoint lastIndexOf (c : N) (s : jsstring) : Z :=
  match s with
  | [] => (-1)%Z
  | d :: s' =>
      let i := lastIndexOf c s' in
      if (0 <=? i)%Z then (i + 1)%Z
      else if d =? c then 0%Z else (-1)%Z
  end.

(** [s.substring(from, to)]: both ends clamped to [0, length], swapped when
    out of order. *)
Definition substring (s : jsstring) (from to : Z) : jsstring :=
  let len := Z.of_nat (length s) in
  let a := Z.min (Z.max from 0) len in
  let b := Z.min (Z.max to 0) len in
  let lo := Z.min a b in
  let hi := Z.max a b in
  firstn (Z.to_nat (hi - lo)) (skipn (Z.to_nat lo) s).

(** [Number.MAX_SAFE_INTEGER], 2^53 - 1: up to it every non-negative integer
    is a Number and Number::toString gives all its decimal digits. Above it
    the digits printed are the shortest that identify the Number, and from
    1e21 on they come in exponent notation. *)
Definition MAX_SAFE_INTEGER : N := 9007199254740991.

(** Template literal of a non-negative integer up to [MAX_SAFE_INTEGER]: its
    decimal digits. The properties use it on such numbers only: an HTTP
    status has three digits, and the height of a level is bounded where its
    label is stated. *)
Definition ofNumber (n : N) : jsstring :=
  js (NilZero.string_of_uint (N.to_uint n)).

End JSString.

(** ** Exceptions *)

(** A thrown [Error]; the handler reads nothing of it but [message]. *)
Record Exn := { message : jsstring }.

Inductive result (A : Type) : Type :=
| Ok (a : A)
| Throw (e : Exn).
Arguments Ok {A} a.
Arguments Throw {A} e.

Definition rbind {A B} (r : result A) (k : A -> result B) : result B :=
  match r with
  | Ok a => k a
  | Throw e => Throw e
  end.

Definition rmap {A B} (f : A -> B) (r : result A) : result B :=
  rbind r (fun a => Ok (f a)).

(** [l.map(f)] where the callback may throw: the first exception wins. *)
Fixpoint mapR {A B} (f : A -> result B) (l : list A) : result (list B) :=
  match l with
  | [] => Ok []
  | x :: l' => rbind (f x) (fun y => rbind (mapR f l') (fun ys => Ok (y :: ys)))
  end.

(** ** URI encoding (ECMA-262, 19.2.6) *)

Module URI.

(** The exception of [Encode] and [Decode]; the text is V8's. *)
Definition URIError : Exn := {| message := js "URI malformed" |}.

Definition isAlpha (c : N) : bool :=
  ((65 <=? c) && (c <=? 90)) || ((97 <=? c) && (c <=? 122)).

Definition isDigit (c : N) : bool := (48 <=? c) && (c <=? 57).

(** uriMark: one of [- _ . ! ~ * ' ( )]. *)
Definition isMark (c : N) : bool :=
  (c =? 45) || (c =? 95) || (c =? 46) || (c =? 33) || (c =? 126)
  || (c =? 42) || (c =? 39) || (c =? 40) || (c =? 41).

(** The characters [encodeURIComponent] leaves alone. *)
Definition uriUnescaped (c : N) : bool := isAlpha c || isDigit c || isMark c.

Definition isLead (c : N) : bool := (0xD800 <=? c) && (c <=? 0xDBFF).
Definition isTrail (c : N) : bool := (0xDC00 <=? c) && (c <=? 0xDFFF).

(** UTF16SurrogatePairToCodePoint *)
Definition codePoint (lead trail : N) : N :=
  (lead - 0xD800) * 0x400 + (trail - 0xDC00) + 0x10000.

(** UTF16EncodeCodePoint *)
Definition utf16 (cp : N) : jsstring :=
  if cp <? 0x10000 then [cp]
  else [0xD800 + (cp - 0x10000) / 0x400; 0xDC00 + (cp - 0x10000) mod 0x400].

(** The UTF-8 octets of a code point. *)
Definition utf8 (cp : N) : list N :=
  if cp <? 0x80 then [cp]
  else if cp <? 0x800 then [0xC0 + cp / 0x40; 0x80 + cp mod 0x40]
  else if cp <? 0x10000 then
    [0xE0 + cp / 0x1000; 0x80 + (cp / 0x40) mod 0x40; 0x80 + cp mod 0x40]
  else
    [0xF0 + cp / 0x40000; 0x80 + (cp / 0x1000) mod 0x40;
     0x80 + (cp / 0x40) mod 0x40; 0x80 + cp mod 0x40].

(** An upper-case hexadecimal digit. *)
Definition hexDigit (d : N) : N := if d <? 10 then 48 + d else 55 + d.

(** ["%XY"] for one octet. *)
Definition escape (b : N) : jsstring :=
  [37; hexDigit (b / 16); hexDigit (b mod 16)].

Definition escapeAll (octets : list N) : jsstring := flat_map escape octets.

(** [Encode(string, uriUnescaped)]: an unpaired surrogate throws. *)
Fixpoint Encode (s : jsstring) : result jsstring :=
  match s with
  | [] => Ok []
  | c :: rest =>
      if uriUnescaped c then rmap (cons c) (Encode rest)
      else if isLead c then
        match rest with
        | d :: rest' =>
            if isTrail d
            then rmap (app (escapeAll (utf8 (codePoint c d)))) (Encode rest')
            else Throw URIError
        | [] => Throw URIError
        end
      else if isTrail c then Throw URIError
      else rmap (app (escapeAll (utf8 c))) (Encode rest)
  end.

Definition encodeURIComponent (s : jsstring) : result jsstring := Encode s.

Definition hexValue (c : N) : option N :=
  if isDigit c then Some (c - 48)
  else if (65 <=? c) && (c <=? 70) then Some (c - 55)
  else if (97 <=? c) && (c <=? 102) then Some (c - 87)
  else None.

(** ParseHexOctet on a ["%XY"] at the head of [s]. *)
Definition readEscape (s : jsstring) : option (N * jsstring) :=
  match s with
  | c :: h :: l :: rest =>
      if c =? 37 then
        match hexValue h, hexValue l with
        | Some a, Some b => Some (16 * a + b, rest)
        | _, _ => None
        end
      else None
  | _ => None
  end.

(** The continuation escapes of a multi-octet sequence. *)
Fixpoint readEscapes (n : nat) (s : jsstring) : option (list N * jsstring) :=
  match n with
  | O => Some ([], s)
  | S n' =>
      match readEscape s with
      | Some (b, rest) =>
          match readEscapes n' rest with
          | Some (bs, rest') => Some (b :: bs, rest')
          | None => None
          end
      | None => None
      end
  end.

(** The number of leading 1 bits of an octet, 5 standing for "more than 4". *)
Definition leadingOnes (b : N) : nat :=
  if b <? 0x80 then 0
  else if b <? 0xC0 then 1
  else if b <? 0xE0 then 2
  else if b <? 0xF0 then 3
  else if b <? 0xF8 then 4
  else 5.

Definition isCont (b : N) : bool := (0x80 <=? b) && (b <? 0xC0).

(** The code point of a valid UTF-8 sequence of two to four octets: no
    overlong form, no surrogate, nothing above U+10FFFF. *)
Definition utf8Decode (octets : list N) : option N :=
  match octets with
  | [b0; b1] =>
      let cp := (b0 - 0xC0) * 0x40 + (b1 - 0x80) in
      if isCont b1 && (0x80 <=? cp) then Some cp else None
  | [b0; b1; b2] =>
      let cp := (b0 - 0xE0) * 0x1000 + (b1 - 0x80) * 0x40 + (b2 - 0x80) in
      if isCont b1 && isCont b2 && (0x800 <=? cp)
         && negb (isLead cp || isTrail cp)
      then Some cp else None
  | [b0; b1; b2; b3] =>
      let cp := (b0 - 0xF0) * 0x40000 + (b1 - 0x80) * 0x1000
                + (b2 - 0x80) * 0x40 + (b3 - 0x80) in
      if isCont b1 && isCont b2 && isCont b3
         && (0x10000 <=? cp) && (cp <? 0x110000)
      then Some cp else None
  | _ => None
  end.

(** [Decode] with the empty reserved set: one pass of the loop per unit
    of fuel. *)
Fixpoint Decode (fuel : nat) (s : jsstring) : result jsstring :=
  match s, fuel with
  | [], _ => Ok []
  | _ :: _, O => Throw URIError
  | c :: rest, S fuel' =>
      if c =? 37 then
        match readEscape s with
        | None => Throw URIError
        | Some (b, rest1) =>
            match leadingOnes b with
            | O => rmap (cons b) (Decode fuel' rest1)
            | S O => Throw URIError
            | S (S (S (S (S _)))) => Throw URIError
            | S n =>
                match readEscapes n rest1 with
                | None => Throw URIError
                | Some (bs, rest2) =>
                    match utf8Decode (b :: bs) with
                    | None => Throw URIError
                    | Some v => rmap (app (utf16 v)) (Decode fuel' rest2)
                    end
                end
            end
        end
      else rmap (cons c) (Decode fuel' rest)
  end.

(** Every pass consumes a code unit, so the length is fuel enough. *)
Definition decodeURIComponent (s : jsstring) : result jsstring :=
  Decode (length s) s.

End URI.

(** ** The manifest rewriter (server.ts, lines 75-101) *)

(** What the handler reads of [new URL(url)]. *)
Record URL := { origin : jsstring; pathname : jsstring }.

Definition inspect {A} (a : A) : { b : A | a = b } := exist _ a eq_refl.

Module Proxy.
Import JSString.

(** ["/api/proxy-manifest?url="] *)
Definition proxyPrefix : jsstring := js "/api/proxy-manifest?url=".

Definition quote : N := 34.

(** The five characters [URI=] and a double quote. *)
Definition uriAttr : jsstring := js "URI=" ++ [quote].

(** [parsedUrl.origin + parsedUrl.pathname.substring(0,
    parsedUrl.pathname.lastIndexOf('/') + 1)] *)
Definition baseUrl (parsedUrl : URL) : jsstring :=
  origin parsedUrl
  ++ substring (pathname parsedUrl) 0 (lastIndexOf 47 (pathname parsedUrl) + 1).

(** *** The regular expression of line 84

    Written with Q for the double quote, the expression is
    [/URI=Q([^Q]+)Q/g]: the text [URI=], a quote, one or more characters
    that are not a quote (the capture group), a quote. *)

Fixpoint stripPrefix (p s : jsstring) : option jsstring :=
  match p, s with
  | [], _ => Some s
  | _ :: _, [] => None
  | a :: p', b :: s' => if a =? b then stripPrefix p' s' else None
  end.

(** The longest run of non-quotes at the head of [s], and what follows. *)
Fixpoint spanNotQuote (s : jsstring) : jsstring * jsstring :=
  match s with
  | [] => ([], [])
  | c :: s' =>
      if c =? quote then ([], s)
      else let (v, r) := spanNotQuote s' in (c :: v, r)
  end.

(** A match of the expression at the head of [s]: the capture group and the
    rest of [s] after the match. The character class excludes the closing
    quote, so of all the runs [+] may take only the longest can be followed
    by one: backtracking finds nothing the greedy run does not. *)
Definition matchURI (s : jsstring) : option (jsstring * jsstring) :=
  match stripPrefix uriAttr s with
  | None => None
  | Some t =>
      match spanNotQuote t with
      | ([], _) => None
      | (v, c :: rest) => if c =? quote then Some (v, rest) else None
      | (_, []) => None
      end
  end.

Lemma stripPrefix_length p s t :
  stripPrefix p s = Some t -> (length t <= length s)%nat.
Proof.
  revert s; induction p as [|a p IH]; intros [|b s]; simpl; intros H;
    try discriminate.
  - inversion H; subst; simpl; lia.
  - inversion H; subst; simpl; lia.
  - destruct (a =? b); [|discriminate]. apply IH in H. simpl; lia.
Qed.

Lemma spanNotQuote_length s :
  (length (snd (spanNotQuote s)) <= length s)%nat.
Proof.
  induction s as [|c s IH]; simpl; [lia|].
  destruct (c =? quote); simpl; [lia|].
  destruct (spanNotQuote s); simpl in *; lia.
Qed.

Lemma matchURI_length s v rest :
  matchURI s = Some (v, rest) -> (length rest < length s)%nat.
Proof.
  unfold matchURI. destruct (stripPrefix uriAttr s) as [t|] eqn:Hp; [|discriminate].
  apply stripPrefix_length in Hp.
  pose proof (spanNotQuote_length t) as Hs.
  destruct (spanNotQuote t) as [[|a v'] [|c r]]; try discriminate.
  destruct (c =? quote); [|discriminate].
  intros H; inversion H; subst. simpl in Hs. lia.
Qed.

(** [s.replace(re, f)] for that expression: the matches are looked for from left
    to right, each search starting where the previous match ended; what
    lies between the matches is copied. [f] receives the capture group. *)
Equations replaceURI (f : jsstring -> result jsstring) (s : jsstring)
  : result jsstring by wf (length s) lt :=
  replaceURI f [] := Ok [];
  replaceURI f (c :: s') with inspect (matchURI (c :: s')) := {
    | exist _ (Some (v, rest)) Hm :=
        rbind (f v) (fun r => rmap (app r) (replaceURI f rest));
    | exist _ None _ := rmap (cons c) (replaceURI f s') }.
Next Obligation. exact (matchURI_length _ _ _ Hm). Qed.

(** *** The callback of [lines.map] (lines 79-101) *)

(** The replacement function of lines 84-90. *)
Definition replacer (parsedUrl : URL) (baseUrl p1 : jsstring) : result jsstring :=
  let absoluteAttrUrl :=
    if negb (startsWith (js "http") p1)
    then (if startsWith (js "/") p1 then origin parsedUrl ++ p1 else baseUrl ++ p1)
    else p1 in
  rbind (URI.encodeURIComponent absoluteAttrUrl)
        (fun e => Ok (uriAttr ++ proxyPrefix ++ e ++ [quote])).

Definition isEmpty (s : jsstring) : bool :=
  match s with [] => true | _ => false end.

Definition rewriteLine (parsedUrl : URL) (baseUrl line : jsstring) : result jsstring :=
  let trimmed := trim line in
  if isEmpty trimmed || startsWith (js "#") trimmed then
    if includes uriAttr trimmed
    then replaceURI (replacer parsedUrl baseUrl) trimmed
    else Ok line
  else
    let absoluteUrl :=
      if negb (startsWith (js "http") trimmed)
      then (if startsWith (js "/") trimmed
            then origin parsedUrl ++ trimmed else baseUrl ++ trimmed)
      else trimmed in
    rbind (URI.encodeURIComponent absoluteUrl) (fun e => Ok (proxyPrefix ++ e)).

(** Lines 76-101: [rewrittenLines]. *)
Definition rewrittenLines (parsedUrl : URL) (text : jsstring)
  : result (list jsstring) :=
  let baseUrl := baseUrl parsedUrl in
  let lines := split_lf text in
  mapR (rewriteLine parsedUrl baseUrl) lines.

(** The body of a rewritten manifest: [rewrittenLines.join('\n')]. *)
Definition rewriteManifest (parsedUrl : URL) (text : jsstring) : result jsstring :=
  rmap join_lf (rewrittenLines parsedUrl text).

End Proxy.

(** ** The handler and its environment *)

(** What [res.send] is given: a string or a [Buffer]. *)
Inductive Body :=
| BodyText (s : jsstring)
| BodyBuffer (bytes : list N).

(** The Express response object, as the calls made on it leave it: the status
    of [res.status] (200 until it is called), the fields of [res.set], and
    the bodies of [res.send] in the order of the calls. *)
Record Res := {
  statusCode : N;
  headers : gmap string jsstring;
  sent : list Body
}.

(** The [Response] of [fetch]: [headers_get] is [response.headers.get], [text]
    and [arrayBuffer] are what awaiting the body readers gives. *)
Record Response := {
  status : N;
  headers_get : string -> option jsstring;
  text : result jsstring;
  arrayBuffer : result (list N)
}.

(** [response.ok] *)
Definition ok (response : Response) : bool :=
  (200 <=? status response) && (status response <=? 299).

(** What the handler reads of [req]: [req.query.url] and [req.headers.range]. *)
Record Request := {
  query_url : option jsstring;
  headers_range : option jsstring
}.

(** What the handler does to the outside, in order. *)
Inductive Event :=
| EvFetch (url : jsstring) (requestHeaders : gmap string jsstring)
| EvText
| EvArrayBuffer
| EvConsoleError (label msg : jsstring).

Record HState := { res : Res; trace : list Event }.

(** Computations of the handler: they change the response object, leave
    events and may throw; what was done before a throw stays done. *)
Definition M (A : Type) : Type := HState -> result A * HState.

Definition ret {A} (a : A) : M A := fun st => (Ok a, st).

Definition bind {A B} (m : M A) (k : A -> M B) : M B :=
  fun st =>
    match m st with
    | (Ok a, st') => k a st'
    | (Throw e, st') => (Throw e, st')
    end.

Definition lift {A} (r : result A) : M A := fun st => (r, st).

(** [try { m } catch (error) { h error }] *)
Definition tryCatch {A} (m : M A) (h : Exn -> M A) : M A :=
  fun st =>
    match m st with
    | (Ok a, st') => (Ok a, st')
    | (Throw e, st') => h e st'
    end.

Notation "x <- m ;; k" := (bind m (fun x => k))
  (at level 100, m at next level, right associativity).
Notation "m ;;; k" := (bind m (fun _ => k))
  (at level 100, right associativity).

Definition emit (ev : Event) : M unit :=
  fun st => (Ok tt, {| res := res st; trace := trace st ++ [ev] |}).

Definition onRes (f : Res -> Res) : M unit :=
  fun st => (Ok tt, {| res := f (res st); trace := trace st |}).

(** [res.status(code)] *)
Definition res_status (code : N) : M unit :=
  onRes (fun r => {| statusCode := code; headers := headers r; sent := sent r |}).

(** [res.set(field, value)] *)
Definition res_set (field : string) (value : jsstring) : M unit :=
  onRes (fun r => {| statusCode := statusCode r;
                     headers := <[field := value]> (headers r);
                     sent := sent r |}).

(** [res.send(body)], the call: [Res] keeps what the handler asked for, and
    [Express.wire] below gives the body Express sends for it. *)
Definition res_send (body : Body) : M unit :=
  onRes (fun r => {| statusCode := statusCode r; headers := headers r;
                     sent := sent r ++ [body] |}).

(** ** What Express sends

    [res.send(chunk)] of express/lib/response.js, for a GET request, as far
    as the body goes. With status 204 or 304 it removes Content-Type,
    Content-Length and Transfer-Encoding and replaces the chunk by the empty
    string; 205 is sent with Content-Length 0 and the empty string; and
    Node's http writes no body after a 1xx status. With any other status the
    chunk is the body. A status outside 100..999 is refused by Node's
    [writeHead]. (A request with validators, If-None-Match or
    If-Modified-Since, that match what Express computes for a 2xx response
    is answered 304 in its place; the handler reads no validator and
    [Request] has none.)

    [res.send] also writes header fields of its own: Content-Length is the
    byte length of the body it sends, whatever [res.set] had put there; a
    string gets "; charset=utf-8" added to its Content-Type; a missing or
    empty Content-Type becomes text/html for a string and
    application/octet-stream for a Buffer; and an ETag is computed. These
    fields are not modelled: [headers] holds the fields of the handler's
    [res.set] calls, and the properties of the response's headers are stated
    for fields that [res.send] leaves alone. *)
Module Express.

Definition informational (statusCode : N) : bool :=
  (100 <=? statusCode) && (statusCode <=? 199).

(** The statuses that go out without a body. *)
Definition bodiless (statusCode : N) : bool :=
  (statusCode =? 204) || (statusCode =? 205) || (statusCode =? 304)
  || informational statusCode.

(** The body that [res.send(chunk)] ends the response with. *)
Definition sendBody (statusCode : N) (chunk : Body) : Body :=
  if bodiless statusCode then BodyText [] else chunk.

(** The bodies on the wire, for a response whose status was set before its
    [res.send] calls, as it is on every path of the handler. *)
Definition wire (r : Res) : list Body :=
  map (sendBody (statusCode r)) (sent r).

(** The statuses Node accepts in a status line. *)
Definition validStatus (statusCode : N) : bool :=
  (100 <=? statusCode) && (statusCode <=? 999).

End Express.

(** A string or [undefined] used as a condition. *)
Definition truthy (o : option jsstring) : bool :=
  match o with
  | Some (_ :: _) => true
  | _ => false
  end.

Section Handler.
Import JSString.

(** The environment: [fetch(url, { headers })] and [new URL(url)]. *)
Variable fetch : jsstring -> gmap string jsstring -> result Response.
Variable newURL : jsstring -> result URL.

Definition await_fetch (url : jsstring) (hs : gmap string jsstring) : M Response :=
  emit (EvFetch url hs) ;;; lift (fetch url hs).

Definition await_text (response : Response) : M jsstring :=
  emit EvText ;;; lift (text response).

Definition await_arrayBuffer (response : Response) : M (list N) :=
  emit EvArrayBuffer ;;; lift (arrayBuffer response).

Definition console_error (label msg : jsstring) : M unit :=
  emit (EvConsoleError label msg).

Definition userAgent : jsstring :=
  js "Mozilla/5.0 (Windows NT 10.0; Win64; x64) AppleWebKit/537.36 (KHTML, like Gecko) Chrome/91.0.4472.124 Safari/537.36".

(** Lines 46-57: the headers of the upstream request. *)
Definition fetchHeaders (req : Request) : gmap string jsstring :=
  let headers0 : gmap string jsstring :=
    <["Accept-Language"%string := js "en-US,en;q=0.9"]>
      (<["Accept"%string := js "*/*"]>
         (<["User-Agent"%string := userAgent]> ∅)) in
  if truthy (headers_range req)
  then <["Range"%string := default [] (headers_range req)]> headers0
  else headers0.

(** Lines 68-70, one of the three: copy a header that is there. *)
Definition passThrough (response : Response) (field : string) : M unit :=
  if truthy (headers_get response field)
  then res_set field (default [] (headers_get response field))
  else ret tt.

(** Line 73. *)
Definition isManifest (contentType url : jsstring) : bool :=
  includes (js "mpegurl") contentType
  || includes (js "apple.mpegurl") contentType
  || includes (js ".m3u8") url.

(** The [try] block, lines 46-114. *)
Definition tryBlock (req : Request) (url : jsstring) : M unit :=
  response <- await_fetch url (fetchHeaders req) ;;
  if negb (ok response) && negb (status response =? 206) then
    res_status (status response) ;;;
    res_send (BodyText (js "Target returned " ++ ofNumber (status response)))
  else
    let contentType := default [] (headers_get response "Content-Type") in
    passThrough response "Content-Range" ;;;
    passThrough response "Accept-Ranges" ;;;
    passThrough response "Content-Length" ;;;
    if isManifest contentType url then
      text <- await_text response ;;
      parsedUrl <- lift (newURL url) ;;
      rewrittenLines <- lift (Proxy.rewrittenLines parsedUrl text) ;;
      res_set "Content-Type" (js "application/vnd.apple.mpegurl") ;;;
      res_set "Access-Control-Allow-Origin" (js "*") ;;;
      res_send (BodyText (join_lf rewrittenLines))
    else
      res_set "Content-Type" contentType ;;;
      res_set "Access-Control-Allow-Origin" (js "*") ;;;
      res_set "Cache-Control" (js "public, max-age=3600") ;;;
      buffer <- await_arrayBuffer response ;;
      res_send (BodyBuffer buffer).

(** The [catch] block, lines 115-118. *)
Definition catchBlock (error : Exn) : M unit :=
  console_error (js "Proxy Error:") (message error) ;;;
  res_status 500 ;;;
  res_send (BodyText (message error)).

(** [app.get("/api/proxy-manifest", ...)], lines 41-119. *)
Definition proxyManifest (req : Request) : M unit :=
  if negb (truthy (query_url req)) then
    res_status 400 ;;; res_send (BodyText (js "URL required"))
  else
    let url := default [] (query_url req) in
    tryCatch (tryBlock req url) catchBlock.

(** A request on a fresh response object. *)
Definition initial : HState :=
  {| res := {| statusCode := 200; headers := ∅; sent := [] |}; trace := [] |}.

Definition handle (req : Request) : HState := snd (proxyManifest req initial).

End Handler.

(** *** The handler in one piece

    The fields lines 68-70 leave on the response object, and the state every
    path of the [try] block ends in; [tryBlock_outcome] below proves that the
    block computes it. *)

Definition passHeader (response : Response) (field : string)
    (h : gmap string jsstring) : gmap string jsstring :=
  if truthy (headers_get response field)
  then <[field := default [] (headers_get response field)]> h
  else h.

Definition passedHeaders (response : Response) : gmap string jsstring :=
  passHeader response "Content-Length"
    (passHeader response "Accept-Ranges"
       (passHeader response "Content-Range" ∅)).

Definition state (code : N) (h : gmap string jsstring) (bodies : list Body)
    (events : list Event) : HState :=
  {| res := {| statusCode := code; headers := h; sent := bodies |};
     trace := events |}.

Definition manifestHeaders (response : Response) : gmap string jsstring :=
  <["Access-Control-Allow-Origin"%string := js "*"]>
    (<["Content-Type"%string := js "application/vnd.apple.mpegurl"]>
       (passedHeaders response)).

Definition binaryHeaders (response : Response) : gmap string jsstring :=
  <["Cache-Control"%string := js "public, max-age=3600"]>
    (<["Access-Control-Allow-Origin"%string := js "*"]>
       (<["Content-Type"%string := default [] (headers_get response "Content-Type")]>
          (passedHeaders response))).

Definition tryOutcome
    (fetch : jsstring -> gmap string jsstring -> result Response)
    (newURL : jsstring -> result URL)
    (req : Request) (url : jsstring) : result unit * HState :=
  let call := EvFetch url (fetchHeaders req) in
  match fetch url (fetchHeaders req) with
  | Throw e => (Throw e, state 200 ∅ [] [call])
  | Ok response =>
      if negb (ok response) && negb (status response =? 206) then
        (Ok tt,
         state (status response) ∅
           [BodyText (js "Target returned " ++ JSString.ofNumber (status response))]
           [call])
      else if isManifest (default [] (headers_get response "Content-Type")) url then
        match text response with
        | Throw e => (Throw e, state 200 (passedHeaders response) [] [call; EvText])
        | Ok t =>
            match newURL url with
            | Throw e =>
                (Throw e, state 200 (passedHeaders response) [] [call; EvText])
            | Ok parsedUrl =>
                match Proxy.rewrittenLines parsedUrl t with
                | Throw e =>
                    (Throw e, state 200 (passedHeaders response) [] [call; EvText])
                | Ok ls =>
                    (Ok tt,
                     state 200 (manifestHeaders response)
                       [BodyText (JSString.join_lf ls)] [call; EvText])
                end
            end
        end
      else
        match arrayBuffer response with
        | Throw e =>
            (Throw e, state 200 (binaryHeaders response) [] [call; EvArrayBuffer])
        | Ok buffer =>
            (Ok tt,
             state 200 (binaryHeaders response) [BodyBuffer buffer]
               [call; EvArrayBuffer])
        end
  end.

(** ** The playlist proxy (server.ts, lines 18-38)

    [app.get("/api/proxy-m3u", ...)]: the playlist is fetched and sent as it
    is; every failure is answered with a JSON object [{ error }]. *)

Module M3UProxy.

(** What the handler answers with: [res.send(content)] or
    [res.json({ error })]. *)
Inductive Reply :=
| Send (content : jsstring)
| JsonError (error : jsstring).

(** The response object as the calls of the handler leave it. *)
Record Res := { statusCode : N; replies : list Reply }.

(** The [Response] of [fetch] with the field this handler reads besides. *)
Record Upstream := { response : Response; statusText : jsstring }.

Record State := { res : Res; trace : list Event }.

Definition M (A : Type) : Type := State -> result A * State.

Definition ret {A} (a : A) : M A := fun st => (Ok a, st).

Definition bind {A B} (m : M A) (k : A -> M B) : M B :=
  fun st =>
    match m st with
    | (Ok a, st') => k a st'
    | (Throw e, st') => (Throw e, st')
    end.

Definition lift {A} (r : result A) : M A := fun st => (r, st).

(** [throw new Error(message)] *)
Definition throwError {A} (message : jsstring) : M A :=
  lift (Throw {| message := message |}).

Definition tryCatch {A} (m : M A) (h : Exn -> M A) : M A :=
  fun st =>
    match m st with
    | (Ok a, st') => (Ok a, st')
    | (Throw e, st') => h e st'
    end.

Definition emit (ev : Event) : M unit :=
  fun st => (Ok tt, {| res := res st; trace := trace st ++ [ev] |}).

(** [res.status(code)] *)
Definition res_status (code : N) : M unit :=
  fun st => (Ok tt, {| res := {| statusCode := code; replies := replies (res st) |};
                       trace := trace st |}).

Definition reply (r : Reply) : M unit :=
  fun st => (Ok tt, {| res := {| statusCode := statusCode (res st);
                                 replies := replies (res st) ++ [r] |};
                       trace := trace st |}).

(** [res.send(content)], the call. The handler sends with status 200, 400
    or 500 only, for which Express sends the body it is given. *)
Definition res_send (content : jsstring) : M unit := reply (Send content).

(** [res.json({ error })] *)
Definition res_json_error (error : jsstring) : M unit := reply (JsonError error).

Section Handler.

Variable fetch : jsstring -> gmap string jsstring -> result Upstream.

(** Lines 26-28: the one header of the upstream request. *)
Definition fetchHeaders : gmap string jsstring :=
  <["User-Agent"%string := userAgent]> ∅.

(** The [try] block, lines 25-34. *)
Definition tryBlock (url : jsstring) : M unit :=
  bind (emit (EvFetch url fetchHeaders)) (fun _ =>
  bind (lift (fetch url fetchHeaders)) (fun upstream =>
  if negb (ok (response upstream)) then
    throwError (js "Failed to fetch: " ++ statusText upstream)
  else
    bind (emit EvText) (fun _ =>
    bind (lift (text (response upstream))) (fun content =>
    res_send content)))).

(** The [catch] block, line 36. *)
Definition catchBlock (error : Exn) : M unit :=
  bind (res_status 500) (fun _ => res_json_error (message error)).

(** Lines 18-38. *)
Definition proxyM3U (req : Request) : M unit :=
  if negb (truthy (query_url req)) then
    bind (res_status 400) (fun _ => res_json_error (js "URL is required"))
  else
    let url := default [] (query_url req) in
    tryCatch (tryBlock url) catchBlock.

Definition initial : State :=
  {| res := {| statusCode := 200; replies := [] |}; trace := [] |}.

Definition handle (req : Request) : State := snd (proxyM3U req initial).

End Handler.

End M3UProxy.

(** ** The player and the import dialog (VideoPlayer.tsx, ImportModal.tsx) *)

Module Player.

(** VideoPlayer.tsx, lines 48-50: [streamUrl]. *)
Definition streamUrl (useProxy : bool) (url : jsstring) : result jsstring :=
  if useProxy
  then rbind (URI.encodeURIComponent url)
             (fun e => Ok (js "/api/proxy-manifest?url=" ++ e))
  else Ok url.

(** ImportModal.tsx, line 25: the URL the dialog fetches. *)
Definition importUrl (url : jsstring) : result jsstring :=
  rbind (URI.encodeURIComponent url) (fun e => Ok (js "/api/proxy-m3u?url=" ++ e)).

(** What [MANIFEST_PARSED] reads of a level of [hls.levels]. *)
Record Level := { height : N; bitrate : N }.

(** [QualityLevel], lines 6-10. *)
Record QualityLevel := { id : N; q_height : N; q_bitrate : N }.

(** [levels.map((level, index) => ({ id: index, height: level.height,
    bitrate: level.bitrate }))], the indices counted from [index]. *)
Fixpoint mapIndexed (index : N) (levels : list Level) : list QualityLevel :=
  match levels with
  | [] => []
  | level :: rest =>
      {| id := index; q_height := height level; q_bitrate := bitrate level |}
      :: mapIndexed (index + 1) rest
  end.

(** [(a, b) => b.height - a.height] *)
Definition byHeightDescending (a b : QualityLevel) : Z :=
  (Z.of_N (q_height b) - Z.of_N (q_height a))%Z.

(** [Array.prototype.sort(comparefn)]. The sort of ECMA-262 is stable, and
    with a consistent comparator its result is the one stable ordering of
    the elements: the ordering an insertion sort computes, an element going
    before the first one it does not compare greater than. *)
Fixpoint insertSorted {A} (comparefn : A -> A -> Z) (x : A) (l : list A) : list A :=
  match l with
  | [] => [x]
  | y :: l' =>
      if (comparefn x y <=? 0)%Z then x :: l
      else y :: insertSorted comparefn x l'
  end.

Definition sort {A} (comparefn : A -> A -> Z) (l : list A) : list A :=
  fold_right (insertSorted comparefn) [] l.

(** Lines 81-85: [availableLevels]. *)
Definition availableLevels (levels : list Level) : list QualityLevel :=
  sort byHeightDescending (mapIndexed 0 levels).

(** Line 257: the text of the quality button. A level that is not found
    gives [undefined], which the template prints. *)
Definition qualityLabel (levels : list QualityLevel) (currentLevel : Z) : jsstring :=
  if (currentLevel =? -1)%Z then js "Auto"
  else
    match List.find (fun l => (Z.of_N (id l) =? currentLevel)%Z) levels with
    | Some l => JSString.ofNumber (q_height l) ++ js "p"
    | None => js "undefined" ++ js "p"
    end.

(** The order the menu is to have: higher first, and of two levels of one
    height the one that comes first in [hls.levels]. *)
Definition before (a b : QualityLevel) : Prop :=
  q_height b < q_height a \/ (q_height a = q_height b /\ id a < id b).

End Player.

(** * What the specification says, in its own words *)

Module Spec.

(** [s] starts with [p]. *)
Definition HasPrefix (p s : jsstring) : Prop := exists t, s = p ++ t.

(** [s] contains [p]. *)
Definition Contains (p s : jsstring) : Prop := exists a b, s = a ++ p ++ b.

(** [s] ends with [p]. *)
Definition HasSuffix (p s : jsstring) : Prop := exists a, s = a ++ p.

(** The resolution rule of the specification (section 4.1, step 4): a
    value is absolute when it starts with the scheme prefix, relative to the
    root when it starts with a slash, and relative to the directory of the
    manifest otherwise. *)
Definition resolve (origin baseDir value : jsstring) : jsstring :=
  if JSString.startsWith (js "http") value then value
  else if JSString.startsWith (js "/") value then origin ++ value
  else baseDir ++ value.

(** The resolved URL wrapped as the specification's step 5 has it:
    [/api/proxy-manifest?url=<encoded-resolved-url>]. *)
Definition proxied (origin baseDir value : jsstring) : result jsstring :=
  rmap (app (js "/api/proxy-manifest?url="))
       (URI.encodeURIComponent (resolve origin baseDir value)).

(** [dir] is [path] up to and including its last slash (nothing when
    [path] has none). *)
Definition DirectoryOf (path dir : jsstring) : Prop :=
  exists file, path = dir ++ file /\ ~ In 47 file
               /\ (dir = [] \/ HasSuffix [47] dir).

(** A line is blank, a tag (comment) or a media reference by what it is
    after trimming. *)
Definition Blank (line : jsstring) : Prop := JSString.trim line = [].
Definition Tag (line : jsstring) : Prop := HasPrefix (js "#") (JSString.trim line).
Definition MediaReference (line : jsstring) : Prop := ~ Blank line /\ ~ Tag line.

(** An occurrence of the attribute at the head of [s]: the text [URI=], a
    quote, a value that is not empty and holds no quote, a quote; [rest] is
    what follows. *)
Definition Occurs (s v rest : jsstring) : Prop :=
  s = Proxy.uriAttr ++ v ++ [Proxy.quote] ++ rest
  /\ v <> [] /\ ~ In Proxy.quote v.

(** A piece of a tag line: an attribute occurrence with its value, or a
    character outside of every occurrence. *)
Inductive piece :=
| Chr (c : N)
| Attr (v : jsstring).

(** A line cut from left to right into its attribute occurrences and the
    characters between them: a character stands alone only where no
    occurrence starts. *)
Inductive Segmentation : jsstring -> list piece -> Prop :=
| seg_nil : Segmentation [] []
| seg_attr s v rest ps :
    Occurs s v rest -> Segmentation rest ps -> Segmentation s (Attr v :: ps)
| seg_chr c s ps :
    (forall v rest, ~ Occurs (c :: s) v rest) ->
    Segmentation s ps -> Segmentation (c :: s) (Chr c :: ps).

(** The text of a piece. *)
Definition source (p : piece) : jsstring :=
  match p with
  | Chr c => [c]
  | Attr v => Proxy.uriAttr ++ v ++ [Proxy.quote]
  end.

(** A piece rewritten as the specification's steps 3 to 5 have it: the
    quoted value gives way to its proxied URL, nothing else changes. *)
Definition rewritePiece (origin baseDir : jsstring) (p : piece) : result jsstring :=
  match p with
  | Chr c => Ok [c]
  | Attr v =>
      rmap (fun w => Proxy.uriAttr ++ w ++ [Proxy.quote]) (proxied origin baseDir v)
  end.

(** No lone surrogate: [String.prototype.isWellFormed]. *)
Fixpoint isWellFormed (s : jsstring) : bool :=
  match s with
  | [] => true
  | c :: rest =>
      if URI.isLead c then
        match rest with
        | d :: rest' => URI.isTrail d && isWellFormed rest'
        | [] => false
        end
      else negb (URI.isTrail c) && isWellFormed rest
  end.

Definition isSurrogate (c : N) : bool := URI.isLead c || URI.isTrail c.

(** Well-formed strings, by their make: characters that are no surrogates,
    and surrogate pairs. *)
Inductive WellFormed : jsstring -> Prop :=
| wf_nil : WellFormed []
| wf_char c s : isSurrogate c = false -> WellFormed s -> WellFormed (c :: s)
| wf_pair c d s :
    URI.isLead c = true -> URI.isTrail d = true -> WellFormed s ->
    WellFormed (c :: d :: s).

(** Every element is a 16-bit code unit. *)
Definition CodeUnits (s : jsstring) : Prop := Forall (fun c => c < 0x10000) s.

(** A character that stands for itself in the value of a query parameter: an
    unreserved one, or the percent sign of an escape. *)
Definition QueryChar (c : N) : Prop := URI.uriUnescaped c = true \/ c = 37.

End Spec.

(** * The inputs of the specification's examples *)

(** The manifest of the examples: what [new URL] gives for
    [https://host/path/live.m3u8]. *)
Definition live_m3u8 : URL :=
  {| origin := js "https://host"; pathname := js "/path/live.m3u8" |}.

(** The tag line of the examples: [#EXT-X-KEY:METHOD=AES-128,URI=] and the
    quoted value [key.bin]. *)
Definition key_line : jsstring :=
  js "#EXT-X-KEY:METHOD=AES-128,URI=" ++ [Proxy.quote] ++ js "key.bin" ++ [Proxy.quote].

(** The same line as it stands in a manifest with CR LF line ends, after the
    split on LF. *)
Definition key_line_cr : jsstring := key_line ++ [13].

(** The key line cut into its pieces: the characters up to the attribute,
    and the attribute with the value [key.bin]. *)
Definition key_line_pieces : list Spec.piece :=
  List.map Spec.Chr (js "#EXT-X-KEY:METHOD=AES-128,") ++ [Spec.Attr (js "key.bin")].

(** A request for [url] with or without a [Range] header. *)
Definition request (url : jsstring) (range : option jsstring) : Request :=
  {| query_url := Some url; headers_range := range |}.

(** An upstream that refuses: status 403. *)
Definition forbidden : Response :=
  {| status := 403; headers_get := fun _ => None;
     text := Ok (js "Forbidden"); arrayBuffer := Ok (js "Forbidden") |}.

(** An upstream that answers 304 Not Modified, which carries no body. *)
Definition not_modified : Response :=
  {| status := 304; headers_get := fun _ => None;
     text := Ok []; arrayBuffer := Ok [] |}.

(** An upstream that honours [Range: bytes=0-1023]: status 206 and a
    [Content-Range] header. *)
Definition partial_content : Response :=
  {| status := 206;
     headers_get := fun field =>
       if String.eqb field "Content-Range" then Some (js "bytes 0-1023/4096")
       else None;
     text := Ok (js "segment bytes"); arrayBuffer := Ok (js "segment bytes") |}.

(** An upstream that serves a media segment as [video/mp2t]; the body is
    four bytes, [data] when read as text. *)
Definition segment_response : Response :=
  {| status := 200;
     headers_get := fun field =>
       if String.eqb field "Content-Type" then Some (js "video/mp2t") else None;
     text := Ok (js "data"); arrayBuffer := Ok (js "data") |}.

(** A segment under a directory named after its playlist, and what
    [new URL] gives for it. *)
Definition segment_url : jsstring := js "http://host/live.m3u8/seg1.ts".

Definition segment_URL : URL :=
  {| origin := js "http://host"; pathname := js "/live.m3u8/seg1.ts" |}.

(** A request without the [url] parameter. *)
Definition request_without_url : Request :=
  {| query_url := None; headers_range := None |}.

(** [fetch] failing before any response: the exception of a refused
    connection. *)
Definition fetch_failed : Exn := {| message := js "fetch failed" |}.

(** An upstream that answers every request with [r], and a [new URL] that
    gives [u]. *)
Definition always {A} (r : A) : jsstring -> gmap string jsstring -> result A :=
  fun _ _ => Ok r.

Definition parses (u : URL) : jsstring -> result URL := fun _ => Ok u.

(** An upstream that serves a two-line playlist as an HLS manifest. *)
Definition manifest_response : Response :=
  {| status := 200;
     headers_get := fun field =>
       if String.eqb field "Content-Type" then Some (js "application/x-mpegurl")
       else None;
     text := Ok (js "#EXTM3U" ++ [10] ++ js "segment.ts");
     arrayBuffer := Ok (js "#EXTM3U" ++ [10] ++ js "segment.ts") |}.

(** The playlist proxy's upstreams: a playlist, and a missing one. *)
Definition playlist_upstream : M3UProxy.Upstream :=
  {| M3UProxy.response := manifest_response; M3UProxy.statusText := js "OK" |}.

Definition missing_upstream : M3UProxy.Upstream :=
  {| M3UProxy.response :=
       {| status := 404; headers_get := fun _ => None;
          text := Ok (js "not found"); arrayBuffer := Ok (js "not found") |};
     M3UProxy.statusText := js "Not Found" |}.

(** The levels of a stream: 360p, 1080p and two renditions of 720p. *)
Definition stream_levels : list Player.Level :=
  [ {| Player.height := 360; Player.bitrate := 800000 |};
    {| Player.height := 1080; Player.bitrate := 5000000 |};
    {| Player.height := 720; Player.bitrate := 2800000 |};
    {| Player.height := 720; Player.bitrate := 3000000 |} ].

(** * Properties *)

(** Boolean tests on code units, turned into arithmetic. *)
Ltac unbool :=
  repeat match goal with
    | H : _ && _ = true |- _ => apply andb_true_iff in H; destruct H
    | H : _ || _ = false |- _ => apply orb_false_iff in H; destruct H
    | H : negb _ = true |- _ => apply negb_true_iff in H
    | H : negb _ = false |- _ => apply negb_false_iff in H
    | H : (_ <=? _) = true |- _ => apply N.leb_le in H
    | H : (_ <=? _) = false |- _ => apply N.leb_gt in H
    | H : (_ <? _) = true |- _ => apply N.ltb_lt in H
    | H : (_ <? _) = false |- _ => apply N.ltb_ge in H
    | H : (_ =? _) = true |- _ => apply N.eqb_eq in H
    | H : (_ =? _) = false |- _ => apply N.eqb_neq in H
    | H : _ || _ = true |- _ => apply orb_true_iff in H; destruct H
    | H : _ && _ = false |- _ => apply andb_false_iff in H; destruct H
    end.

(** Linear arithmetic with quotients and remainders by constants. *)
Ltac dlia := zify; Z.to_euclidean_division_equations; lia.

(** A boolean goal about code units, decided by arithmetic. *)
Ltac boolia :=
  match goal with
  | |- ?b = true => destruct b eqn:?; [reflexivity | exfalso]
  | |- ?b = false => destruct b eqn:?; [exfalso | reflexivity]
  | _ => idtac
  end; unbool; first [lia | dlia].

(** ** Strings *)

Section StringFacts.
Import JSString Spec.

Lemma startsWith_HasPrefix p s : startsWith p s = true <-> HasPrefix p s.
Proof.
  revert s; induction p as [|a p IH]; intros s; simpl.
  - split; [intros _; exists s; reflexivity | reflexivity].
  - destruct s as [|b s].
    + split; [discriminate | intros [t Ht]; discriminate].
    + rewrite andb_true_iff, N.eqb_eq, IH. split.
      * intros [-> [t ->]]. exists t. reflexivity.
      * intros [t Ht]. simpl in Ht. inversion Ht; subst. split; [reflexivity|].
        exists t; reflexivity.
Qed.

Lemma startsWith_false p s : startsWith p s = false <-> ~ HasPrefix p s.
Proof.
  rewrite <- startsWith_HasPrefix. destruct (startsWith p s); intuition congruence.
Qed.

Lemma includes_Contains p s : includes p s = true <-> Contains p s.
Proof.
  induction s as [|c s IH].
  - simpl. rewrite orb_false_r, startsWith_HasPrefix. split.
    + intros [t Ht]. exists [], t. exact Ht.
    + intros [a [b H]]. destruct a; [exists b; exact H | discriminate].
  - cbn [includes]. rewrite orb_true_iff, startsWith_HasPrefix, IH. split.
    + intros [[t Ht] | [a [b Hab]]].
      * exists [], t. exact Ht.
      * exists (c :: a), b. simpl. rewrite Hab. reflexivity.
    + intros [[|d a] [b Hab]].
      * left. exists b. exact Hab.
      * right. simpl in Hab. inversion Hab; subst. exists a, b. reflexivity.
Qed.

Lemma includes_false p s : includes p s = false <-> ~ Contains p s.
Proof.
  rewrite <- includes_Contains. destruct (includes p s); intuition congruence.
Qed.

Lemma split_lf_nonempty s : split_lf s <> [].
Proof.
  destruct s as [|c s]; simpl; [discriminate|].
  destruct (c =? 10); [discriminate|]. destruct (split_lf s); discriminate.
Qed.

(** Splitting on line feeds and joining with line feeds gives the text back. *)
Lemma join_split_lf s : join_lf (split_lf s) = s.
Proof.
  induction s as [|c s IH]; [reflexivity|].
  simpl. destruct (c =? 10) eqn:Hc.
  - apply N.eqb_eq in Hc; subst c.
    pose proof (split_lf_nonempty s) as Hne.
    destruct (split_lf s) as [|l ls] eqn:Hs; [congruence|].
    rewrite <- IH. reflexivity.
  - destruct (split_lf s) as [|l ls] eqn:Hs.
    + exfalso. exact (split_lf_nonempty s Hs).
    + simpl in IH. rewrite <- IH. destruct ls; reflexivity.
Qed.

Lemma mapR_Ok_id {A} (f : A -> result A) (l : list A) :
  (forall x, In x l -> f x = Ok x) -> mapR f l = Ok l.
Proof.
  induction l as [|x l IH]; intros H; [reflexivity|].
  simpl. rewrite (H x (or_introl eq_refl)). simpl.
  rewrite IH; [reflexivity|]. intros y Hy. apply H. right; exact Hy.
Qed.

Lemma Forall_trim (P : N -> Prop) line : Forall P line -> Forall P (trim line).
Proof.
  assert (Hs : forall s, Forall P s -> Forall P (trimStart s)).
  { induction 1 as [|c s Hc Hs IH]; simpl; [constructor|].
    destruct (isWhiteSpace c); [exact IH | constructor; assumption]. }
  intros H. unfold trim, trimEnd. apply Forall_rev, Hs, Forall_rev, Hs, H.
Qed.

Lemma isEmpty_true s : Proxy.isEmpty s = true <-> s = [].
Proof. destruct s; simpl; split; congruence. Qed.

End StringFacts.

(** ** Percent-encoding and decoding *)

Section RoundTrip.
Import Spec URI.

Lemma readEscape_length s b rest :
  readEscape s = Some (b, rest) -> length s = (3 + length rest)%nat.
Proof.
  destruct s as [|c [|h [|l r]]]; cbn [readEscape]; try discriminate.
  destruct (c =? 37); [|discriminate].
  destruct (hexValue h); [|discriminate]. destruct (hexValue l); [|discriminate].
  intros H. inversion H; subst. reflexivity.
Qed.

Lemma readEscapes_length n : forall s bs rest,
  readEscapes n s = Some (bs, rest) -> (length rest <= length s)%nat.
Proof.
  induction n as [|n IH]; intros s bs rest; simpl.
  - intros H. inversion H. lia.
  - destruct (readEscape s) as [[b r]|] eqn:Hr; [|discriminate].
    destruct (readEscapes n r) as [[bs' r']|] eqn:Hrs; [|discriminate].
    intros H. inversion H; subst. apply readEscape_length in Hr.
    apply IH in Hrs. lia.
Qed.

(** [Decode] does not depend on its fuel once there is as much of it as the
    string is long. *)
Lemma Decode_fuel f1 : forall f2 s,
  (length s <= f1)%nat -> (length s <= f2)%nat -> Decode f1 s = Decode f2 s.
Proof.
  induction f1 as [|f1 IH]; intros f2 [|c rest] H1 H2;
    try (destruct f2; reflexivity); simpl in H1; try lia.
  destruct f2 as [|f2]; [simpl in H2; lia|]. cbn [Decode].
  destruct (c =? 37).
  - destruct (readEscape (c :: rest)) as [[b rest1]|] eqn:Hr; [|reflexivity].
    apply readEscape_length in Hr. simpl in Hr, H2.
    destruct (leadingOnes b) as [|[|[|[|[|n]]]]]; try reflexivity;
      try (rewrite (IH f2 rest1) by lia; reflexivity);
      (destruct (readEscapes _ rest1) as [[bs rest2]|] eqn:Hrs; [|reflexivity];
       apply readEscapes_length in Hrs;
       destruct (utf8Decode (b :: bs)); [|reflexivity];
       rewrite (IH f2 rest2) by lia; reflexivity).
  - simpl in H2. rewrite (IH f2 rest) by lia. reflexivity.
Qed.

Lemma hexValue_hexDigit d : d < 16 -> hexValue (hexDigit d) = Some d.
Proof.
  intros Hd. unfold hexValue, hexDigit, isDigit.
  destruct (d <? 10) eqn:H10; unbool.
  - replace ((48 <=? 48 + d) && (48 + d <=? 57)) with true by (symmetry; boolia).
    f_equal. dlia.
  - replace ((48 <=? 55 + d) && (55 + d <=? 57)) with false by (symmetry; boolia).
    replace ((65 <=? 55 + d) && (55 + d <=? 70)) with true by (symmetry; boolia).
    f_equal. dlia.
Qed.

Lemma readEscape_escape b rest :
  b < 256 -> readEscape (escape b ++ rest) = Some (b, rest).
Proof.
  intros Hb. unfold escape. cbn [app readEscape]. rewrite N.eqb_refl.
  rewrite !hexValue_hexDigit by dlia. do 2 f_equal. dlia.
Qed.

Lemma readEscapes_escapeAll bs rest :
  Forall (fun b => b < 256) bs ->
  readEscapes (length bs) (escapeAll bs ++ rest) = Some (bs, rest).
Proof.
  induction 1 as [|b bs Hb _ IH]; [reflexivity|].
  cbn [length readEscapes escapeAll flat_map]. rewrite <- app_assoc.
  rewrite (readEscape_escape b _ Hb). fold (escapeAll bs). rewrite IH. reflexivity.
Qed.

Lemma utf8_octets cp : cp < 0x110000 -> Forall (fun b => b < 256) (utf8 cp).
Proof.
  intros Hcp. unfold utf8.
  destruct (cp <? 0x80) eqn:H1; [|destruct (cp <? 0x800) eqn:H2;
    [|destruct (cp <? 0x10000) eqn:H3]]; unbool; repeat constructor; dlia.
Qed.

Lemma rmap_app_singleton {c : N} (r : result jsstring) :
  rmap (app [c]) r = rmap (cons c) r.
Proof. destruct r; reflexivity. Qed.

(** One escaped octet below 128 decodes to its character. *)
Lemma Decode_ascii fuel c rest :
  c < 0x80 ->
  Decode (S fuel) (escape c ++ rest) = rmap (cons c) (Decode fuel rest).
Proof.
  intros Hc.
  assert (Hr : readEscape (escape c ++ rest) = Some (c, rest))
    by (apply readEscape_escape; lia).
  unfold escape in *. cbn [app] in *. cbn [Decode].
  rewrite N.eqb_refl, Hr. unfold leadingOnes.
  replace (c <? 0x80) with true by (symmetry; boolia). reflexivity.
Qed.

(** An escaped sequence of two to four octets decodes to its code point. *)
Lemma Decode_sequence fuel b0 bs v rest :
  b0 < 256 -> Forall (fun b => b < 256) bs ->
  leadingOnes b0 = S (length bs) -> (1 <= length bs <= 3)%nat ->
  utf8Decode (b0 :: bs) = Some v ->
  Decode (S fuel) (escape b0 ++ escapeAll bs ++ rest)
  = rmap (app (utf16 v)) (Decode fuel rest).
Proof.
  intros Hb Hbs Hl Hn Hv.
  assert (Hr : readEscape (escape b0 ++ escapeAll bs ++ rest)
               = Some (b0, escapeAll bs ++ rest))
    by (apply readEscape_escape; exact Hb).
  pose proof (readEscapes_escapeAll bs rest Hbs) as Hrs.
  unfold escape in *. cbn [app] in *. cbn [Decode].
  rewrite N.eqb_refl, Hr, Hl.
  destruct (length bs) as [|[|[|[|n]]]] eqn:Hlen; try lia;
    rewrite Hrs, Hv; reflexivity.
Qed.

Lemma utf8Decode_utf8 cp :
  0x80 <= cp -> cp < 0x110000 -> isLead cp = false -> isTrail cp = false ->
  exists b0 bs,
    utf8 cp = b0 :: bs /\ b0 < 256 /\ leadingOnes b0 = S (length bs)
    /\ (1 <= length bs <= 3)%nat /\ utf8Decode (b0 :: bs) = Some cp.
Proof.
  intros Hlo Hhi Hl Ht.
  assert (Hs : cp < 0xD800 \/ 0xDFFF < cp)
    by (unfold isLead, isTrail in *; unbool; lia).
  clear Hl Ht. unfold utf8.
  replace (cp <? 0x80) with false by (symmetry; boolia).
  destruct (cp <? 0x800) eqn:H2; [|destruct (cp <? 0x10000) eqn:H3];
    unbool; eexists; eexists; (split; [reflexivity|]).
  - split; [dlia|]. split.
    + unfold leadingOnes.
      replace (0xC0 + cp / 0x40 <? 0x80) with false by (symmetry; boolia).
      replace (0xC0 + cp / 0x40 <? 0xC0) with false by (symmetry; boolia).
      replace (0xC0 + cp / 0x40 <? 0xE0) with true by (symmetry; boolia).
      reflexivity.
    + split; [simpl; lia|]. unfold utf8Decode, isCont.
      replace ((0x80 <=? 0x80 + cp mod 0x40) && (0x80 + cp mod 0x40 <? 0xC0))
        with true by (symmetry; boolia).
      replace (0xC0 + cp / 0x40 - 0xC0) with (cp / 0x40) by dlia.
      replace (0x80 + cp mod 0x40 - 0x80) with (cp mod 0x40) by dlia.
      replace (cp / 0x40 * 0x40 + cp mod 0x40) with cp by dlia.
      replace (0x80 <=? cp) with true by (symmetry; boolia). reflexivity.
  - split; [dlia|]. split.
    + unfold leadingOnes.
      replace (0xE0 + cp / 0x1000 <? 0x80) with false by (symmetry; boolia).
      replace (0xE0 + cp / 0x1000 <? 0xC0) with false by (symmetry; boolia).
      replace (0xE0 + cp / 0x1000 <? 0xE0) with false by (symmetry; boolia).
      replace (0xE0 + cp / 0x1000 <? 0xF0) with true by (symmetry; boolia).
      reflexivity.
    + split; [simpl; lia|]. unfold utf8Decode, isCont, isLead, isTrail.
      replace ((0x80 <=? 0x80 + (cp / 0x40) mod 0x40)
               && (0x80 + (cp / 0x40) mod 0x40 <? 0xC0))
        with true by (symmetry; boolia).
      replace ((0x80 <=? 0x80 + cp mod 0x40) && (0x80 + cp mod 0x40 <? 0xC0))
        with true by (symmetry; boolia).
      replace ((0xE0 + cp / 0x1000 - 0xE0) * 0x1000
               + (0x80 + (cp / 0x40) mod 0x40 - 0x80) * 0x40
               + (0x80 + cp mod 0x40 - 0x80)) with cp by dlia.
      replace (0x800 <=? cp) with true by (symmetry; boolia).
      replace ((0xD800 <=? cp) && (cp <=? 0xDBFF)) with false by (symmetry; boolia).
      replace ((0xDC00 <=? cp) && (cp <=? 0xDFFF)) with false by (symmetry; boolia).
      reflexivity.
  - split; [dlia|]. split.
    + unfold leadingOnes.
      replace (0xF0 + cp / 0x40000 <? 0x80) with false by (symmetry; boolia).
      replace (0xF0 + cp / 0x40000 <? 0xC0) with false by (symmetry; boolia).
      replace (0xF0 + cp / 0x40000 <? 0xE0) with false by (symmetry; boolia).
      replace (0xF0 + cp / 0x40000 <? 0xF0) with false by (symmetry; boolia).
      replace (0xF0 + cp / 0x40000 <? 0xF8) with true by (symmetry; boolia).
      reflexivity.
    + split; [simpl; lia|]. unfold utf8Decode, isCont.
      replace ((0x80 <=? 0x80 + (cp / 0x1000) mod 0x40)
               && (0x80 + (cp / 0x1000) mod 0x40 <? 0xC0))
        with true by (symmetry; boolia).
      replace ((0x80 <=? 0x80 + (cp / 0x40) mod 0x40)
               && (0x80 + (cp / 0x40) mod 0x40 <? 0xC0))
        with true by (symmetry; boolia).
      replace ((0x80 <=? 0x80 + cp mod 0x40) && (0x80 + cp mod 0x40 <? 0xC0))
        with true by (symmetry; boolia).
      replace ((0xF0 + cp / 0x40000 - 0xF0) * 0x40000
               + (0x80 + (cp / 0x1000) mod 0x40 - 0x80) * 0x1000
               + (0x80 + (cp / 0x40) mod 0x40 - 0x80) * 0x40
               + (0x80 + cp mod 0x40 - 0x80)) with cp by dlia.
      replace (0x10000 <=? cp) with true by (symmetry; boolia).
      replace (cp <? 0x110000) with true by (symmetry; boolia).
      reflexivity.
Qed.

Lemma utf16_codePoint c d :
  isLead c = true -> isTrail d = true ->
  utf16 (codePoint c d) = [c; d]
  /\ 0x10000 <= codePoint c d /\ codePoint c d < 0x110000.
Proof.
  unfold isLead, isTrail, utf16, codePoint. intros Hc Hd. unbool.
  replace ((c - 0xD800) * 0x400 + (d - 0xDC00) + 0x10000 <? 0x10000)
    with false by (symmetry; boolia).
  split; [|lia]. f_equal; [dlia | f_equal; dlia].
Qed.

(** What [Decode] does with the escapes of one code point. *)
Lemma Decode_escaped fuel cp rest :
  cp < 0x110000 -> isLead cp = false -> isTrail cp = false ->
  exists c e,
    escapeAll (utf8 cp) ++ rest = c :: e
    /\ (length rest <= length e)%nat
    /\ Decode (S fuel) (c :: e) = rmap (app (utf16 cp)) (Decode fuel rest).
Proof.
  intros Hhi Hl Ht. destruct (cp <? 0x80) eqn:Hlo; unbool.
  - pose proof (Decode_ascii fuel cp rest Hlo) as Hd.
    unfold utf8, utf16.
    replace (cp <? 0x80) with true by (symmetry; boolia).
    replace (cp <? 0x10000) with true by (symmetry; boolia).
    cbn [escapeAll flat_map]. rewrite app_nil_r. unfold escape in *.
    cbn [app] in *. eexists; eexists; split; [reflexivity|].
    split; [simpl; lia|].
    rewrite Hd. symmetry. apply rmap_app_singleton.
  - destruct (utf8Decode_utf8 cp Hlo Hhi Hl Ht)
      as [b0 [bs [Hu [Hb [Hn [Hlen Hv]]]]]].
    pose proof (utf8_octets cp Hhi) as Ho. rewrite Hu in *.
    inversion Ho as [|? ? _ Hbs]; subst.
    pose proof (Decode_sequence fuel b0 bs cp rest Hb Hbs Hn Hlen Hv) as Hd.
    cbn [escapeAll flat_map]. fold (escapeAll bs). rewrite <- app_assoc.
    unfold escape in *. cbn [app] in *.
    eexists; eexists; split; [reflexivity|].
    split; [simpl; rewrite length_app; lia | exact Hd].
Qed.

Lemma uriUnescaped_plain c :
  uriUnescaped c = true ->
  (c =? 37) = false /\ isLead c = false /\ isTrail c = false /\ c < 0x80.
Proof.
  unfold uriUnescaped, isAlpha, isDigit, isMark, isLead, isTrail. intros H.
  assert (Hc : c < 0x80 /\ c <> 37) by (unbool; lia).
  repeat split; boolia.
Qed.

Lemma Decode_Encode n : forall s e,
  (length s <= n)%nat -> CodeUnits s -> Encode s = Ok e ->
  forall fuel, (length e <= fuel)%nat -> Decode fuel e = Ok s.
Proof.
  induction n as [|n IH]; intros [|c rest] e Hl Hcu He fuel Hf;
    try (simpl in He; inversion He; subst; destruct fuel; reflexivity);
    [simpl in Hl; lia|].
  inversion Hcu as [|? ? Hc Hrest]; subst. cbn [Encode] in He.
  destruct (uriUnescaped c) eqn:Hu.
  - destruct (uriUnescaped_plain c Hu) as [H37 _].
    destruct (Encode rest) as [e'|] eqn:He'; [|discriminate].
    simpl in He. inversion He; subst e. destruct fuel; [simpl in Hf; lia|].
    cbn [Decode]. rewrite H37.
    rewrite (IH rest e'); [reflexivity | simpl in Hl; lia | exact Hrest
                          | exact He' | simpl in Hf; lia].
  - destruct (isLead c) eqn:Hlead.
    + destruct rest as [|d rest']; [discriminate|].
      destruct (isTrail d) eqn:Htrail; [|discriminate].
      destruct (Encode rest') as [e'|] eqn:He'; [|discriminate].
      simpl in He. inversion He; subst e.
      destruct (utf16_codePoint c d Hlead Htrail) as [H16 [Hlo Hhi]].
      destruct (Decode_escaped (pred fuel) (codePoint c d) e' Hhi)
        as [x [y [Hxy [Hlen Hd]]]]; try (unfold isLead, isTrail; boolia).
      rewrite Hxy in *. destruct fuel; [simpl in Hf; lia|]. cbn [pred] in Hd.
      rewrite Hd, H16. inversion Hrest; subst.
      rewrite (IH rest' e'); [reflexivity | simpl in Hl; lia | assumption
                             | exact He' |].
      simpl in Hf. lia.
    + destruct (isTrail c) eqn:Htrail; [discriminate|].
      destruct (Encode rest) as [e'|] eqn:He'; [|discriminate].
      simpl in He. inversion He; subst e.
      destruct (Decode_escaped (pred fuel) c e' ltac:(lia) Hlead Htrail)
        as [x [y [Hxy [Hlen Hd]]]].
      rewrite Hxy in *. destruct fuel; [simpl in Hf; lia|]. cbn [pred] in Hd.
      rewrite Hd. unfold utf16. replace (c <? 0x10000) with true by (symmetry; boolia).
      rewrite (IH rest e'); [reflexivity | simpl in Hl; lia | exact Hrest
                            | exact He' |].
      simpl in Hf. lia.
Qed.

(** Decoding what [encodeURIComponent] returns gives the string back. *)
Lemma decodeURIComponent_encodeURIComponent s e :
  CodeUnits s -> encodeURIComponent s = Ok e -> decodeURIComponent e = Ok s.
Proof.
  intros Hcu He. unfold decodeURIComponent.
  apply (Decode_Encode (length s) s e); auto.
Qed.

Lemma hexDigit_unescaped d : d < 16 -> uriUnescaped (hexDigit d) = true.
Proof.
  intros Hd. unfold hexDigit, uriUnescaped, isAlpha, isDigit, isMark.
  destruct (d <? 10) eqn:H10; boolia.
Qed.

Lemma escapeAll_chars bs :
  Forall (fun b => b < 256) bs -> Forall QueryChar (escapeAll bs).
Proof.
  induction 1 as [|b bs Hb _ IH]; [constructor|].
  cbn [escapeAll flat_map]. unfold escape. cbn [app].
  constructor; [right; reflexivity|].
  constructor; [left; apply hexDigit_unescaped; dlia|].
  constructor; [left; apply hexDigit_unescaped; dlia | exact IH].
Qed.

(** What [encodeURIComponent] returns holds nothing but unreserved
    characters and escapes. *)
Lemma Encode_chars n : forall s e,
  (length s <= n)%nat -> CodeUnits s -> Encode s = Ok e -> Forall QueryChar e.
Proof.
  induction n as [|n IH]; intros [|c rest] e Hl Hcu He;
    try (simpl in He; inversion He; subst; constructor);
    [simpl in Hl; lia|].
  inversion Hcu as [|? ? Hc Hrest]; subst. cbn [Encode] in He.
  destruct (uriUnescaped c) eqn:Hu.
  - destruct (Encode rest) as [e'|] eqn:He'; [|discriminate].
    simpl in He. inversion He; subst e. constructor; [left; exact Hu|].
    apply (IH rest e'); [simpl in Hl; lia | exact Hrest | exact He'].
  - destruct (isLead c) eqn:Hlead.
    + destruct rest as [|d rest']; [discriminate|].
      destruct (isTrail d) eqn:Htrail; [|discriminate].
      destruct (Encode rest') as [e'|] eqn:He'; [|discriminate].
      simpl in He. inversion He; subst e.
      destruct (utf16_codePoint c d Hlead Htrail) as [_ [_ Hhi]].
      inversion Hrest; subst. apply Forall_app. split.
      * apply escapeAll_chars, utf8_octets, Hhi.
      * apply (IH rest' e'); [simpl in Hl; lia | assumption | exact He'].
    + destruct (isTrail c); [discriminate|].
      destruct (Encode rest) as [e'|] eqn:He'; [|discriminate].
      simpl in He. inversion He; subst e. apply Forall_app. split.
      * apply escapeAll_chars, utf8_octets. lia.
      * apply (IH rest e'); [simpl in Hl; lia | exact Hrest | exact He'].
Qed.

Lemma CodeUnits_trim line : CodeUnits line -> CodeUnits (JSString.trim line).
Proof. apply Forall_trim. Qed.

Lemma CodeUnits_resolve u v :
  CodeUnits (origin u) -> CodeUnits (pathname u) -> CodeUnits v ->
  CodeUnits (resolve (origin u) (Proxy.baseUrl u) v).
Proof.
  intros Ho Hp Hv. unfold resolve, Proxy.baseUrl, JSString.substring.
  destruct (JSString.startsWith (js "http") v); [exact Hv|].
  destruct (JSString.startsWith (js "/") v); unfold CodeUnits in *;
    repeat (apply Forall_app; split); auto;
    apply Forall_take, Forall_drop, Hp.
Qed.

End RoundTrip.

(** ** URL resolution *)

Section Resolution.
Import JSString Spec Proxy.

(** The rule of the specification, case by case. *)
Lemma resolve_cases o b v :
  (HasPrefix (js "http") v -> resolve o b v = v)
  /\ (~ HasPrefix (js "http") v -> HasPrefix (js "/") v -> resolve o b v = o ++ v)
  /\ (~ HasPrefix (js "http") v -> ~ HasPrefix (js "/") v -> resolve o b v = b ++ v).
Proof.
  unfold resolve. repeat split.
  - intros H. apply startsWith_HasPrefix in H. rewrite H. reflexivity.
  - intros H1 H2. apply startsWith_false in H1. apply startsWith_HasPrefix in H2.
    rewrite H1, H2. reflexivity.
  - intros H1 H2. apply startsWith_false in H1. apply startsWith_false in H2.
    rewrite H1, H2. reflexivity.
Qed.

Lemma lastIndexOf_cases c s :
  (lastIndexOf c s = (-1)%Z /\ ~ In c s)
  \/ (exists a b, s = a ++ c :: b /\ ~ In c b
                  /\ lastIndexOf c s = Z.of_nat (length a)).
Proof.
  induction s as [|d s IH]; simpl.
  - left. split; [reflexivity | intros []].
  - destruct IH as [[Hi Hn] | [a [b [Hs [Hn Hi]]]]].
    + rewrite Hi. simpl. destruct (d =? c) eqn:Hd.
      * apply N.eqb_eq in Hd; subst d. right. exists [], s.
        repeat split; auto.
      * apply N.eqb_neq in Hd. left. split; [reflexivity|].
        intros [H|H]; [congruence | exact (Hn H)].
    + rewrite Hi. right. exists (d :: a), b. repeat split.
      * simpl. rewrite Hs. reflexivity.
      * exact Hn.
      * destruct (0 <=? Z.of_nat (length a))%Z eqn:Hle.
        -- simpl length. lia.
        -- apply Z.leb_gt in Hle. lia.
Qed.

Lemma substring_0 s n :
  (0 <= n)%Z -> substring s 0 n = firstn (Z.to_nat n) s.
Proof.
  intros Hn. unfold substring.
  replace (Z.min (Z.max 0 0) (Z.of_nat (length s))) with 0%Z by lia.
  replace (Z.max n 0) with n by lia.
  replace (Z.min 0 (Z.min n (Z.of_nat (length s)))) with 0%Z by lia.
  replace (Z.max 0 (Z.min n (Z.of_nat (length s))))
    with (Z.min n (Z.of_nat (length s))) by lia.
  change (skipn (Z.to_nat 0) s) with s. rewrite Z.sub_0_r.
  destruct (Z.le_gt_cases n (Z.of_nat (length s))) as [H|H].
  - rewrite Z.min_l by lia. reflexivity.
  - rewrite Z.min_r by lia. rewrite Nat2Z.id.
    rewrite firstn_all. symmetry. apply firstn_all2. lia.
Qed.

(** The directory of the manifest: the path up to and including its last
    slash. *)
Lemma directory_of_pathname path :
  DirectoryOf path (substring path 0 (lastIndexOf 47 path + 1)).
Proof.
  destruct (lastIndexOf_cases 47 path) as [[Hi Hn] | [a [b [Hs [Hn Hi]]]]].
  - rewrite Hi. simpl. exists path. repeat split; auto.
    rewrite substring_0 by lia. reflexivity.
    left. rewrite substring_0 by lia. reflexivity.
  - rewrite Hi, substring_0 by lia.
    assert (Hf : firstn (Z.to_nat (Z.of_nat (length a) + 1)) path = a ++ [47]).
    { replace (Z.to_nat (Z.of_nat (length a) + 1)) with (length (a ++ [47]))
        by (rewrite length_app; simpl; lia).
      rewrite Hs. change (a ++ 47 :: b) with (a ++ [47] ++ b).
      rewrite app_assoc. rewrite firstn_app, firstn_all, Nat.sub_diag.
      simpl. rewrite app_nil_r. reflexivity. }
    rewrite Hf. exists b. repeat split.
    + rewrite Hs, <- app_assoc. reflexivity.
    + exact Hn.
    + right. exists a. reflexivity.
Qed.

Lemma baseUrl_directory u :
  exists dir, baseUrl u = origin u ++ dir /\ DirectoryOf (pathname u) dir.
Proof.
  eexists. split; [reflexivity | apply directory_of_pathname].
Qed.

Lemma not_media_reference line :
  MediaReference line ->
  isEmpty (trim line) || startsWith (js "#") (trim line) = false.
Proof.
  intros [Hb Ht]. apply orb_false_iff. split.
  - destruct (isEmpty (trim line)) eqn:He; [|reflexivity].
    apply isEmpty_true in He. contradiction.
  - apply startsWith_false. exact Ht.
Qed.

(** Lines 95-100 compute the rule of the specification. *)
Lemma rewriteLine_media u b line :
  MediaReference line ->
  rewriteLine u b line = proxied (origin u) b (trim line).
Proof.
  intros Hm. unfold rewriteLine. rewrite (not_media_reference _ Hm).
  unfold proxied, resolve, rmap.
  destruct (startsWith (js "http") (trim line)); reflexivity.
Qed.

(** Lines 85-89 compute it too. *)
Lemma replacer_proxied u b p1 :
  replacer u b p1
  = rmap (fun w => uriAttr ++ w ++ [quote]) (proxied (origin u) b p1).
Proof.
  unfold replacer, proxied, resolve, rmap.
  destruct (startsWith (js "http") p1); simpl;
    match goal with
    | |- context [URI.encodeURIComponent ?x] =>
        destruct (URI.encodeURIComponent x); simpl; try reflexivity
    end; rewrite <- !app_assoc; reflexivity.
Qed.

Lemma Encode_total_aux n : forall s,
  (length s <= n)%nat -> isWellFormed s = true -> exists e, URI.Encode s = Ok e.
Proof.
  induction n as [|n IH]; intros [|c s] Hl Hw;
    try (exists []; reflexivity); simpl in Hl; [lia|].
  simpl in *. destruct (URI.uriUnescaped c) eqn:Hu.
  - assert (Hs : isWellFormed s = true).
    { destruct (URI.isLead c) eqn:Hlead.
      - exfalso. unfold URI.uriUnescaped, URI.isAlpha, URI.isDigit, URI.isMark,
          URI.isLead in *. unbool; lia.
      - apply andb_true_iff in Hw. tauto. }
    destruct (IH s ltac:(lia) Hs) as [e He]. rewrite He. eexists; reflexivity.
  - destruct (URI.isLead c).
    + destruct s as [|d s]; [discriminate|].
      apply andb_true_iff in Hw. destruct Hw as [Hd Hs]. rewrite Hd.
      destruct (IH s ltac:(simpl in Hl; lia) Hs) as [e He]. rewrite He.
      eexists; reflexivity.
    + apply andb_true_iff in Hw. destruct Hw as [Hd Hs].
      apply negb_true_iff in Hd. rewrite Hd.
      destruct (IH s ltac:(lia) Hs) as [e He]. rewrite He. eexists; reflexivity.
Qed.

(** [encodeURIComponent] returns on every well-formed string. *)
Lemma encodeURIComponent_total s :
  isWellFormed s = true -> exists e, URI.encodeURIComponent s = Ok e.
Proof. apply (Encode_total_aux (length s)); lia. Qed.

Lemma mapR_nth {A B} (f : A -> result B) l out i x :
  mapR f l = Ok out -> nth_error l i = Some x ->
  exists y, f x = Ok y /\ nth_error out i = Some y.
Proof.
  revert out i; induction l as [|a l IH]; intros out i Hm Hn.
  - destruct i; discriminate.
  - simpl in Hm. destruct (f a) as [y|] eqn:Hf; [|discriminate]. simpl in Hm.
    destruct (mapR f l) as [ys|] eqn:Hl; [|discriminate]. simpl in Hm.
    inversion Hm; subst out. destruct i as [|i]; simpl in *.
    + inversion Hn; subst. exists y; auto.
    + eapply IH; eauto.
Qed.

Lemma MediaReference_test line :
  isEmpty (trim line) || startsWith (js "#") (trim line) = false ->
  MediaReference line.
Proof.
  intros H. apply orb_false_iff in H. destruct H as [He Hs]. split.
  - intros Hb. unfold Blank in Hb. rewrite Hb in He. discriminate.
  - apply startsWith_false. exact Hs.
Qed.

End Resolution.

(** ** Tag lines and the attribute expression *)

Section TagLines.
Import JSString Spec Proxy.

Lemma stripPrefix_Some p s t : stripPrefix p s = Some t <-> s = p ++ t.
Proof.
  revert s; induction p as [|a p IH]; intros s; simpl.
  - split; intros H; [inversion H | subst]; reflexivity.
  - destruct s as [|b s]; [split; discriminate|].
    destruct (a =? b) eqn:Hab.
    + apply N.eqb_eq in Hab; subst b. rewrite IH. split.
      * intros ->. reflexivity.
      * intros H. inversion H. reflexivity.
    + apply N.eqb_neq in Hab. split; [discriminate|].
      intros H. inversion H. congruence.
Qed.

Lemma spanNotQuote_app s :
  let (v, r) := spanNotQuote s in
  s = v ++ r /\ ~ In quote v /\ (r = [] \/ exists r', r = quote :: r').
Proof.
  induction s as [|c s IH]; simpl.
  - repeat split; auto.
  - destruct (c =? quote) eqn:Hc.
    + apply N.eqb_eq in Hc; subst c. repeat split; auto. right. eauto.
    + apply N.eqb_neq in Hc. destruct (spanNotQuote s) as [v r].
      destruct IH as [Hs [Hn Hr]]. repeat split.
      * simpl. rewrite <- Hs. reflexivity.
      * intros [H|H]; [congruence | exact (Hn H)].
      * exact Hr.
Qed.

Lemma spanNotQuote_value v rest :
  ~ In quote v -> spanNotQuote (v ++ quote :: rest) = (v, quote :: rest).
Proof.
  induction v as [|c v IH]; intros Hn.
  - reflexivity.
  - simpl. destruct (c =? quote) eqn:Hc.
    + apply N.eqb_eq in Hc. exfalso. apply Hn. left. exact Hc.
    + rewrite IH; [reflexivity|]. intros H. apply Hn. right. exact H.
Qed.

(** [matchURI] finds exactly the occurrences of the attribute. *)
Lemma matchURI_Occurs s v rest :
  matchURI s = Some (v, rest) <-> Occurs s v rest.
Proof.
  unfold matchURI, Occurs. split.
  - destruct (stripPrefix uriAttr s) as [t|] eqn:Hp; [|discriminate].
    apply stripPrefix_Some in Hp. pose proof (spanNotQuote_app t) as Hs.
    destruct (spanNotQuote t) as [[|a w] [|c r]]; try discriminate.
    destruct (c =? quote) eqn:Hc; [|discriminate].
    apply N.eqb_eq in Hc; subst c. intros H; inversion H; subst v rest.
    destruct Hs as [Ht [Hn _]]. repeat split.
    + rewrite Hp, Ht. reflexivity.
    + discriminate.
    + exact Hn.
  - intros [Hs [Hne Hn]]. subst s.
    assert (Hp : stripPrefix uriAttr (uriAttr ++ v ++ [quote] ++ rest)
                 = Some (v ++ [quote] ++ rest))
      by (apply stripPrefix_Some; reflexivity).
    rewrite Hp. simpl app. rewrite (spanNotQuote_value v rest Hn).
    destruct v; [congruence|]. reflexivity.
Qed.

Lemma matchURI_None s :
  matchURI s = None -> forall v rest, ~ Occurs s v rest.
Proof.
  intros H v rest Ho. apply matchURI_Occurs in Ho. congruence.
Qed.

Lemma Segmentation_source s ps :
  Segmentation s ps -> concat (List.map source ps) = s.
Proof.
  induction 1 as [|s v rest ps [Hs _] _ IH|c s ps _ _ IH]; simpl.
  - reflexivity.
  - rewrite IH, Hs, <- !app_assoc. reflexivity.
  - rewrite IH. reflexivity.
Qed.

Lemma Occurs_functional s v rest v' rest' :
  Occurs s v rest -> Occurs s v' rest' -> v = v' /\ rest = rest'.
Proof.
  intros H H'. apply matchURI_Occurs in H, H'. rewrite H in H'.
  inversion H'. auto.
Qed.

(** A line has one segmentation. *)
Lemma Segmentation_functional s ps :
  Segmentation s ps -> forall ps', Segmentation s ps' -> ps = ps'.
Proof.
  induction 1 as [|s v rest ps Ho _ IH|c s ps Hn _ IH]; intros ps' H'.
  - inversion H' as [|? ? ? ? Ho'|]; subst; [reflexivity|].
    destruct Ho' as [Heq _]. discriminate.
  - inversion H' as [|? v' rest' ps2 Ho' Hs'|c' s' ps2 Hn' Hs']; subst.
    + destruct Ho as [Heq _]. discriminate.
    + destruct (Occurs_functional _ _ _ _ _ Ho Ho') as [-> ->].
      f_equal. apply IH. exact Hs'.
    + exfalso. exact (Hn' _ _ Ho).
  - inversion H' as [|? v' rest' ps2 Ho' Hs'|c' s' ps2 Hn' Hs']; subst.
    + exfalso. exact (Hn _ _ Ho').
    + f_equal. apply IH. exact Hs'.
Qed.

(** The replacement runs over the segmentation of the string: the callback
    is applied to the value of every occurrence, the characters between the
    occurrences are copied. *)
Lemma replaceURI_Segmentation f s :
  exists ps,
    Segmentation s ps
    /\ replaceURI f s
       = rmap (@concat N)
              (mapR (fun p => match p with
                              | Chr c => Ok [c]
                              | Attr v => f v
                              end) ps).
Proof.
  funelim (replaceURI f s).
  - exists []. split; [constructor | reflexivity].
  - match goal with
    | IH : jsstring -> exists _, _ |- _ => destruct (IH []) as [ps [Hseg Hr]]
    end.
    exists (Attr v :: ps). split.
    + apply seg_attr with rest; [apply matchURI_Occurs; assumption | exact Hseg].
    + simpl. rewrite Hr. destruct (f v) as [r|]; [|reflexivity]. simpl.
      destruct (mapR _ ps); reflexivity.
  - match goal with IH : exists _, _ |- _ => destruct IH as [ps [Hseg Hr]] end.
    exists (Chr c :: ps). split.
    + apply seg_chr; [apply matchURI_None; assumption | exact Hseg].
    + simpl. rewrite Hr. destruct (mapR _ ps); reflexivity.
Qed.

Lemma replaceURI_None f c s :
  matchURI (c :: s) = None ->
  replaceURI f (c :: s) = rmap (cons c) (replaceURI f s).
Proof.
  intros H. simp replaceURI.
  destruct (inspect (matchURI (c :: s))) as [[[v r]|] E]; simpl; [congruence|].
  reflexivity.
Qed.

Lemma replaceURI_Some f s v rest :
  matchURI s = Some (v, rest) ->
  replaceURI f s = rbind (f v) (fun r => rmap (app r) (replaceURI f rest)).
Proof.
  intros H. destruct s as [|c s]; [discriminate|]. simp replaceURI.
  destruct (inspect (matchURI (c :: s))) as [[[v' r']|] E]; simpl; [|congruence].
  assert (Hv : Some (v', r') = Some (v, rest)) by congruence.
  inversion Hv; subst. reflexivity.
Qed.

End TagLines.

(** ** The rewriting never throws on well-formed text *)

Section WellFormedText.
Import JSString Spec Proxy.

Lemma lead_not_trail c : URI.isLead c = true -> URI.isTrail c = false.
Proof. unfold URI.isLead, URI.isTrail. intros H. boolia. Qed.

Lemma isWellFormed_WellFormed_aux n : forall s,
  (length s <= n)%nat -> (isWellFormed s = true <-> WellFormed s).
Proof.
  induction n as [|n IH]; intros [|c s] Hl; simpl in Hl; try lia;
    try (split; [constructor | reflexivity]).
  cbn [isWellFormed]. destruct (URI.isLead c) eqn:Hlead.
  - destruct s as [|d s].
    + split; [discriminate|]. intros H. inversion H; subst.
      unfold isSurrogate in *. rewrite Hlead in *. discriminate.
    + rewrite andb_true_iff, (IH s) by (simpl in Hl; lia). split.
      * intros [Hd Hs]. apply wf_pair; assumption.
      * intros H. inversion H; subst.
        -- unfold isSurrogate in *. rewrite Hlead in *. discriminate.
        -- auto.
  - rewrite andb_true_iff, negb_true_iff, (IH s) by lia. split.
    + intros [Ht Hs]. apply wf_char; [|exact Hs].
      unfold isSurrogate. rewrite Hlead, Ht. reflexivity.
    + intros H. inversion H; subst.
      * unfold isSurrogate in *. rewrite Hlead in *. simpl in *. auto.
      * congruence.
Qed.

Lemma isWellFormed_WellFormed s : isWellFormed s = true <-> WellFormed s.
Proof. apply (isWellFormed_WellFormed_aux (length s)). lia. Qed.

Lemma WellFormed_app a b : WellFormed a -> WellFormed b -> WellFormed (a ++ b).
Proof.
  induction 1; intros Hb; simpl;
    [exact Hb | apply wf_char; auto | apply wf_pair; auto].
Qed.

(** A well-formed string cut at a character that is no surrogate. *)
Lemma WellFormed_cut a c b :
  WellFormed (a ++ c :: b) -> isSurrogate c = false ->
  WellFormed a /\ WellFormed b.
Proof.
  intros H Hc. remember (a ++ c :: b) as s eqn:Hs. revert a Hs.
  induction H as [|x s Hx H IH|x d s Hx Hd H IH]; intros a Hs.
  - destruct a; discriminate.
  - destruct a as [|y a]; simpl in Hs; inversion Hs; subst.
    + split; [constructor | exact H].
    + destruct (IH a eq_refl) as [Ha Hb]. split; [constructor|]; assumption.
  - destruct a as [|y [|z a]]; simpl in Hs; inversion Hs; subst.
    + unfold isSurrogate in Hc. rewrite Hx in Hc. discriminate.
    + unfold isSurrogate in Hc. rewrite Hd, orb_true_r in Hc. discriminate.
    + destruct (IH a eq_refl) as [Ha Hb]. split; [apply wf_pair|]; assumption.
Qed.

Lemma WellFormed_drop_char c s :
  isSurrogate c = false -> WellFormed (c :: s) -> WellFormed s.
Proof. intros Hc H. exact (proj2 (WellFormed_cut [] c s H Hc)). Qed.

Lemma whitespace_not_surrogate c : isWhiteSpace c = true -> isSurrogate c = false.
Proof.
  unfold isWhiteSpace, isSurrogate, URI.isLead, URI.isTrail. intros H. boolia.
Qed.

Lemma trimStart_app s :
  exists ws, s = ws ++ trimStart s /\ Forall (fun c => isWhiteSpace c = true) ws.
Proof.
  induction s as [|c s [ws [Hs Hw]]]; simpl.
  - exists []. split; [reflexivity | constructor].
  - destruct (isWhiteSpace c) eqn:Hc.
    + exists (c :: ws). split; [simpl; rewrite <- Hs; reflexivity|].
      constructor; assumption.
    + exists []. split; [reflexivity | constructor].
Qed.

Lemma WellFormed_drop_whitespace ws s :
  Forall (fun c => isWhiteSpace c = true) ws ->
  WellFormed (ws ++ s) -> WellFormed s.
Proof.
  induction 1 as [|c ws Hc _ IH]; simpl; intros H; [exact H|].
  apply IH. exact (WellFormed_drop_char c _ (whitespace_not_surrogate c Hc) H).
Qed.

Lemma WellFormed_before_whitespace ws s :
  Forall (fun c => isWhiteSpace c = true) ws ->
  WellFormed (s ++ ws) -> WellFormed s.
Proof.
  intros Hw H. destruct Hw as [|c ws Hc _].
  - rewrite app_nil_r in H. exact H.
  - exact (proj1 (WellFormed_cut s c ws H (whitespace_not_surrogate c Hc))).
Qed.

Lemma WellFormed_trim s : WellFormed s -> WellFormed (trim s).
Proof.
  intros H. unfold trim, trimEnd.
  destruct (trimStart_app s) as [ws [Hs Hw]].
  assert (H1 : WellFormed (trimStart s))
    by (apply (WellFormed_drop_whitespace ws); [exact Hw | rewrite <- Hs; exact H]).
  destruct (trimStart_app (rev (trimStart s))) as [ws' [Hs' Hw']].
  apply (WellFormed_before_whitespace (rev ws')).
  - apply Forall_rev. exact Hw'.
  - rewrite <- rev_app_distr, <- Hs', rev_involutive. exact H1.
Qed.

Lemma WellFormed_lines s : WellFormed s -> Forall WellFormed (split_lf s).
Proof.
  assert (Hcons : forall c s, (c =? 10) = false ->
            split_lf (c :: s) = (c :: hd [] (split_lf s)) :: tl (split_lf s)).
  { intros c t Hc. simpl. rewrite Hc.
    pose proof (split_lf_nonempty t). destruct (split_lf t); [congruence|reflexivity]. }
  induction 1 as [|c s Hc H IH|c d s Hc Hd H IH].
  - repeat constructor.
  - destruct (c =? 10) eqn:H10.
    + simpl. rewrite H10. constructor; [constructor | exact IH].
    + rewrite (Hcons c s H10). pose proof (split_lf_nonempty s).
      destruct (split_lf s) as [|l ls]; [congruence|]. inversion IH; subst.
      constructor; [apply wf_char; assumption | assumption].
  - assert (Hc10 : (c =? 10) = false) by (unfold URI.isLead in Hc; boolia).
    assert (Hd10 : (d =? 10) = false) by (unfold URI.isTrail in Hd; boolia).
    rewrite (Hcons c _ Hc10), (Hcons d _ Hd10). pose proof (split_lf_nonempty s).
    destruct (split_lf s) as [|l ls]; [congruence|]. inversion IH; subst.
    constructor; [apply wf_pair; assumption | assumption].
Qed.

Lemma mapR_total {A B} (P : A -> Prop) (f : A -> result B) l :
  (forall x, P x -> exists y, f x = Ok y) -> Forall P l ->
  exists ys, mapR f l = Ok ys.
Proof.
  intros Hf. induction 1 as [|x l Hx _ [ys IH]]; simpl.
  - eexists; reflexivity.
  - destruct (Hf x Hx) as [y Hy]. rewrite Hy, IH. eexists; reflexivity.
Qed.

Lemma WellFormed_drop_prefix p s :
  Forall (fun c => isSurrogate c = false) p -> WellFormed (p ++ s) -> WellFormed s.
Proof.
  induction 1 as [|c p Hc _ IH]; simpl; intros H; [exact H|].
  apply IH. exact (WellFormed_drop_char c _ Hc H).
Qed.

Lemma uriAttr_plain : Forall (fun c => isSurrogate c = false) uriAttr.
Proof. repeat constructor. Qed.

(** [replace] returns when the callback returns on every well-formed value.
    The search may stand between the halves of a surrogate pair; no match
    starts there. *)
Lemma replaceURI_total f n : forall s,
  (length s <= n)%nat ->
  (forall v, WellFormed v -> exists r, f v = Ok r) ->
  WellFormed s \/ (exists d s', s = d :: s' /\ URI.isTrail d = true /\ WellFormed s') ->
  exists out, replaceURI f s = Ok out.
Proof.
  induction n as [|n IH]; intros [|c s] Hl Hf Hs; simpl in Hl; try lia;
    try (exists []; reflexivity).
  destruct (matchURI (c :: s)) as [[v rest]|] eqn:Hm.
  - rewrite (replaceURI_Some _ _ _ _ Hm).
    pose proof (matchURI_length _ _ _ Hm) as Hlen.
    apply matchURI_Occurs in Hm. destruct Hm as [Heq _].
    assert (Hwf : WellFormed (c :: s)).
    { destruct Hs as [H | [d [s' [Hd [Ht _]]]]]; [exact H|].
      inversion Hd; subst d s'. inversion Heq; subst c. discriminate. }
    rewrite Heq in Hwf. apply (WellFormed_drop_prefix _ _ uriAttr_plain) in Hwf.
    apply WellFormed_cut in Hwf; [|reflexivity]. destruct Hwf as [Hv Hrest].
    destruct (Hf v Hv) as [r Hr]. rewrite Hr. simpl.
    destruct (IH rest ltac:(simpl in Hlen; lia) Hf (or_introl Hrest)) as [out Ho].
    rewrite Ho. eexists; reflexivity.
  - rewrite (replaceURI_None _ _ _ Hm).
    assert (Hs' : WellFormed s
                  \/ (exists d s', s = d :: s' /\ URI.isTrail d = true /\ WellFormed s')).
    { destruct Hs as [H | [d [s' [Hd [Ht H]]]]].
      - inversion H; subst; [left; assumption|]. right. eauto.
      - inversion Hd; subst. left. exact H. }
    destruct (IH s ltac:(lia) Hf Hs') as [out Ho]. rewrite Ho. eexists; reflexivity.
Qed.

Lemma WellFormed_baseUrl u :
  WellFormed (origin u) -> WellFormed (pathname u) -> WellFormed (baseUrl u).
Proof.
  intros Ho Hp. unfold baseUrl. apply WellFormed_app; [exact Ho|].
  destruct (directory_of_pathname (pathname u)) as [file [Hpath [_ Hdir]]].
  destruct Hdir as [Hd | [d Hd]]; [rewrite Hd; constructor|].
  rewrite Hd in *. rewrite <- app_assoc in Hpath. simpl in Hpath.
  rewrite Hpath in Hp. apply WellFormed_cut in Hp; [|reflexivity].
  apply WellFormed_app; [tauto | repeat constructor].
Qed.

Lemma WellFormed_resolve o b v :
  WellFormed o -> WellFormed b -> WellFormed v -> WellFormed (resolve o b v).
Proof.
  intros Ho Hb Hv. unfold resolve.
  destruct (startsWith (js "http") v); [exact Hv|].
  destruct (startsWith (js "/") v); apply WellFormed_app; assumption.
Qed.

Lemma proxied_total o b v :
  WellFormed o -> WellFormed b -> WellFormed v -> exists w, proxied o b v = Ok w.
Proof.
  intros Ho Hb Hv. unfold proxied.
  destruct (encodeURIComponent_total (resolve o b v)) as [e He].
  - apply isWellFormed_WellFormed, WellFormed_resolve; assumption.
  - rewrite He. eexists; reflexivity.
Qed.

Lemma rewriteLine_total u line :
  WellFormed (origin u) -> WellFormed (pathname u) -> WellFormed line ->
  exists out, rewriteLine u (baseUrl u) line = Ok out.
Proof.
  intros Ho Hp Hl. pose proof (WellFormed_baseUrl u Ho Hp) as Hb.
  pose proof (WellFormed_trim line Hl) as Ht.
  destruct (isEmpty (trim line) || startsWith (js "#") (trim line)) eqn:Hk.
  - unfold rewriteLine. rewrite Hk.
    destruct (includes uriAttr (trim line)); [|eexists; reflexivity].
    apply (replaceURI_total _ (length (trim line))); [lia | | left; exact Ht].
    intros v Hv. rewrite replacer_proxied.
    destruct (proxied_total (origin u) (baseUrl u) v Ho Hb Hv) as [w Hw].
    rewrite Hw. eexists; reflexivity.
  - rewrite (rewriteLine_media u _ line (MediaReference_test _ Hk)).
    apply proxied_total; assumption.
Qed.

(** A manifest as [response.text()] gives it, a well-formed string, is
    rewritten without an exception. *)
Lemma rewrittenLines_total u text :
  isWellFormed (origin u) = true -> isWellFormed (pathname u) = true ->
  isWellFormed text = true ->
  exists out, rewrittenLines u text = Ok out.
Proof.
  rewrite !isWellFormed_WellFormed. intros Ho Hp Ht. unfold rewrittenLines.
  apply (mapR_total WellFormed); [|apply WellFormed_lines; exact Ht].
  intros line Hl. apply rewriteLine_total; assumption.
Qed.

End WellFormedText.

(** ** Media reference lines *)

Section ReferenceRewriting.
Import JSString Spec Proxy.

(** The root-relative reference of the specification's example resolves
    against the origin, not the directory. *)
Example root_relative_example :
  resolve (origin live_m3u8) (baseUrl live_m3u8) (js "/seg/1.ts")
  = js "https://host/seg/1.ts".
Proof. vm_compute. reflexivity. Qed.

Example relative_example :
  resolve (origin live_m3u8) (baseUrl live_m3u8) (js "segment.ts")
  = js "https://host/path/segment.ts".
Proof. vm_compute. reflexivity. Qed.

(** C2. A line that after trimming is neither empty nor a comment is
    replaced as a whole by [/api/proxy-manifest?url=] followed by the
    percent-encoded resolved URL, also when the reference is absolute
    already (the resolved URL is then the trimmed line itself); the
    replacement is there whenever the resolved URL is a well-formed string,
    and it is the line of the rewritten manifest at the same index; a
    well-formed manifest under a well-formed URL is rewritten without an
    exception. *)
Theorem media_reference_replaced (parsedUrl : URL) (line : jsstring) :
  MediaReference line ->
  let b := baseUrl parsedUrl in
  let absoluteUrl := resolve (origin parsedUrl) b (trim line) in
  rewriteLine parsedUrl b line
  = rbind (URI.encodeURIComponent absoluteUrl)
          (fun e => Ok (js "/api/proxy-manifest?url=" ++ e))
  /\ (HasPrefix (js "http") (trim line) -> absoluteUrl = trim line)
  /\ (isWellFormed absoluteUrl = true ->
      exists e, URI.encodeURIComponent absoluteUrl = Ok e
                /\ rewriteLine parsedUrl b line
                   = Ok (js "/api/proxy-manifest?url=" ++ e))
  /\ (forall text out i,
        rewrittenLines parsedUrl text = Ok out ->
        nth_error (split_lf text) i = Some line ->
        exists e, URI.encodeURIComponent absoluteUrl = Ok e
                  /\ nth_error out i = Some (js "/api/proxy-manifest?url=" ++ e))
  /\ (forall text,
        isWellFormed (origin parsedUrl) = true ->
        isWellFormed (pathname parsedUrl) = true ->
        isWellFormed text = true ->
        exists out, rewrittenLines parsedUrl text = Ok out).
Proof.
  intros Hm b absoluteUrl.
  assert (Heq : rewriteLine parsedUrl b line
                = rbind (URI.encodeURIComponent absoluteUrl)
                        (fun e => Ok (js "/api/proxy-manifest?url=" ++ e))).
  { rewrite (rewriteLine_media _ _ _ Hm). reflexivity. }
  split; [exact Heq|]. split; [apply resolve_cases|]. split.
  - intros Hw. destruct (encodeURIComponent_total _ Hw) as [e He].
    exists e. split; [exact He|]. rewrite Heq, He. reflexivity.
  - split; [|intros text; apply rewrittenLines_total].
    intros text out i Hout Hi.
    destruct (mapR_nth _ _ _ _ _ Hout Hi) as [y [Hy Hn]].
    fold b in Hy. rewrite Heq in Hy.
    destruct (URI.encodeURIComponent absoluteUrl) as [e|]; [|discriminate].
    exists e. split; [reflexivity|]. simpl in Hy. inversion Hy; subst. exact Hn.
Qed.

(** The absolute reference of the specification's example: wrapped, not
    resolved against the base. *)
Lemma media_reference_replaced_witness :
  MediaReference (js "http://other.host/x.ts")
  /\ rewriteLine live_m3u8 (baseUrl live_m3u8) (js "http://other.host/x.ts")
     = Ok (js "/api/proxy-manifest?url=http%3A%2F%2Fother.host%2Fx.ts").
Proof.
  assert (Hm : MediaReference (js "http://other.host/x.ts"))
    by (apply MediaReference_test; vm_compute; reflexivity).
  split; [exact Hm|].
  rewrite (proj1 (media_reference_replaced live_m3u8 _ Hm)).
  vm_compute. reflexivity.
Defined.

End ReferenceRewriting.

(** ** What the rewritten references decode to *)

Section DecodedReferences.
Import JSString Spec Proxy.

Lemma proxied_decodes u v w :
  CodeUnits (origin u) -> CodeUnits (pathname u) -> CodeUnits v ->
  proxied (origin u) (baseUrl u) v = Ok w ->
  exists e,
    w = js "/api/proxy-manifest?url=" ++ e
    /\ Forall QueryChar e
    /\ URI.decodeURIComponent e = Ok (resolve (origin u) (baseUrl u) v).
Proof.
  intros Ho Hp Hv Hw. unfold proxied in Hw.
  pose proof (CodeUnits_resolve u v Ho Hp Hv) as Hcu.
  destruct (URI.encodeURIComponent (resolve (origin u) (baseUrl u) v))
    as [e|] eqn:He; [|discriminate].
  simpl in Hw. inversion Hw; subst w. exists e. split; [reflexivity|]. split.
  - exact (Encode_chars _ _ _ (Nat.le_refl _) Hcu He).
  - exact (decodeURIComponent_encodeURIComponent _ _ Hcu He).
Qed.

(** C10. The URL a rewritten reference carries in its [url] parameter, a
    media reference line or the value of a URI attribute, is made of
    unreserved characters and escapes only, and URL-decoding it gives the
    resolved absolute URL back; on every well-formed string encoding succeeds
    and decoding undoes it. *)
Theorem rewritten_reference_decodes (parsedUrl : URL) :
  CodeUnits (origin parsedUrl) -> CodeUnits (pathname parsedUrl) ->
  let o := origin parsedUrl in
  let b := baseUrl parsedUrl in
  (forall line out,
     CodeUnits line -> MediaReference line ->
     rewriteLine parsedUrl b line = Ok out ->
     exists e,
       out = js "/api/proxy-manifest?url=" ++ e
       /\ Forall QueryChar e
       /\ URI.decodeURIComponent e = Ok (resolve o b (trim line)))
  /\ (forall p1 out,
        CodeUnits p1 -> replacer parsedUrl b p1 = Ok out ->
        exists e,
          out = uriAttr ++ js "/api/proxy-manifest?url=" ++ e ++ [quote]
          /\ Forall QueryChar e
          /\ URI.decodeURIComponent e = Ok (resolve o b p1))
  /\ (forall s,
        CodeUnits s -> isWellFormed s = true ->
        exists e,
          URI.encodeURIComponent s = Ok e /\ URI.decodeURIComponent e = Ok s).
Proof.
  intros Ho Hp o b. split; [|split].
  - intros line out Hl Hm Hr. rewrite (rewriteLine_media _ _ _ Hm) in Hr.
    exact (proxied_decodes _ _ _ Ho Hp (CodeUnits_trim _ Hl) Hr).
  - intros p1 out Hv Hr. rewrite replacer_proxied in Hr.
    destruct (proxied (origin parsedUrl) b p1) as [w|] eqn:Hw; [|discriminate].
    simpl in Hr. inversion Hr; subst out.
    destruct (proxied_decodes _ _ _ Ho Hp Hv Hw) as [e [-> [Hc Hd]]].
    exists e. rewrite <- !app_assoc. auto.
  - intros s Hcu Hw. destruct (encodeURIComponent_total s Hw) as [e He].
    exists e. split; [exact He|].
    exact (decodeURIComponent_encodeURIComponent _ _ Hcu He).
Qed.

End DecodedReferences.

Lemma rewritten_reference_decodes_witness :
  Spec.CodeUnits (origin live_m3u8) /\ Spec.CodeUnits (pathname live_m3u8)
  /\ Spec.CodeUnits (js "segment.ts") /\ Spec.MediaReference (js "segment.ts")
  /\ exists e,
       Proxy.rewriteLine live_m3u8 (Proxy.baseUrl live_m3u8) (js "segment.ts")
       = Ok (js "/api/proxy-manifest?url=" ++ e)
       /\ URI.decodeURIComponent e = Ok (js "https://host/path/segment.ts").
Proof.
  assert (Ho : Spec.CodeUnits (origin live_m3u8))
    by (repeat constructor).
  assert (Hp : Spec.CodeUnits (pathname live_m3u8))
    by (repeat constructor).
  assert (Hl : Spec.CodeUnits (js "segment.ts")) by (repeat constructor).
  assert (Hm : Spec.MediaReference (js "segment.ts"))
    by (apply MediaReference_test; vm_compute; reflexivity).
  repeat (split; [assumption|]).
  destruct (proj1 (rewritten_reference_decodes live_m3u8 Ho Hp)
              (js "segment.ts")
              (js "/api/proxy-manifest?url=https%3A%2F%2Fhost%2Fpath%2Fsegment.ts")
              Hl Hm ltac:(vm_compute; reflexivity)) as [e [He [_ Hd]]].
  exists e. split; [|exact Hd].
  rewrite <- He. vm_compute. reflexivity.
Defined.

(** ** Tag lines rewritten *)

Section TagLineRewriting.
Import JSString Spec Proxy.

Lemma mapR_ext {A B} (f g : A -> result B) l :
  (forall x, f x = g x) -> mapR f l = mapR g l.
Proof.
  intros H. induction l as [|x l IH]; simpl; [reflexivity|].
  rewrite H, IH. reflexivity.
Qed.

Lemma Blank_or_Tag_test line :
  Blank line \/ Tag line ->
  isEmpty (trim line) || startsWith (js "#") (trim line) = true.
Proof.
  intros [Hb | Ht]; apply orb_true_iff.
  - left. apply isEmpty_true. exact Hb.
  - right. apply startsWith_HasPrefix. exact Ht.
Qed.

(** Lines 81-93 on a line that is blank or a tag. *)
Lemma rewriteLine_tag u b line :
  Blank line \/ Tag line ->
  rewriteLine u b line
  = if includes uriAttr (trim line)
    then replaceURI (replacer u b) (trim line)
    else Ok line.
Proof.
  intros H. unfold rewriteLine. rewrite (Blank_or_Tag_test _ H). reflexivity.
Qed.

Lemma QueryChar_not_LF c : QueryChar c -> c <> 10.
Proof.
  intros [H | H]; [|lia].
  unfold URI.uriUnescaped, URI.isAlpha, URI.isDigit, URI.isMark in H.
  unbool; lia.
Qed.

Lemma proxied_single_line u v w :
  CodeUnits (origin u) -> CodeUnits (pathname u) -> CodeUnits v ->
  proxied (origin u) (baseUrl u) v = Ok w -> Forall (fun c => c <> 10) w.
Proof.
  intros Ho Hp Hv Hw.
  destruct (proxied_decodes u v w Ho Hp Hv Hw) as [e [-> [He _]]].
  apply Forall_app. split.
  - vm_compute. repeat constructor; discriminate.
  - eapply List.Forall_impl; [|exact He]. exact QueryChar_not_LF.
Qed.

Lemma piece_single_line u p y :
  CodeUnits (origin u) -> CodeUnits (pathname u) ->
  Forall (fun c => c < 0x10000 /\ c <> 10) (source p) ->
  rewritePiece (origin u) (baseUrl u) p = Ok y ->
  Forall (fun c => c <> 10) y.
Proof.
  intros Ho Hp Hsrc Hy. destruct p as [c|v]; cbn [rewritePiece source] in *.
  - assert (Heq : y = [c]) by congruence. subst y.
    inversion Hsrc; subst. constructor; [tauto | constructor].
  - unfold rmap, rbind in Hy.
    destruct (proxied (origin u) (baseUrl u) v) as [w|] eqn:Hw; [|discriminate].
    assert (Heq : y = uriAttr ++ w ++ [quote]) by congruence. subst y.
    apply Forall_app in Hsrc. destruct Hsrc as [Hattr Hv].
    apply Forall_app in Hv. destruct Hv as [Hv Hq].
    apply Forall_app. split; [eapply List.Forall_impl; [|exact Hattr]; simpl; tauto|].
    apply Forall_app. split; [|eapply List.Forall_impl; [|exact Hq]; simpl; tauto].
    apply (proxied_single_line u v w Ho Hp); [|exact Hw].
    eapply List.Forall_impl; [|exact Hv]. simpl; tauto.
Qed.

Lemma pieces_single_line u ps : forall outs,
  CodeUnits (origin u) -> CodeUnits (pathname u) ->
  Forall (fun c => c < 0x10000 /\ c <> 10) (concat (List.map source ps)) ->
  mapR (rewritePiece (origin u) (baseUrl u)) ps = Ok outs ->
  Forall (fun c => c <> 10) (concat outs).
Proof.
  induction ps as [|p ps IH]; intros outs Ho Hp Hs Hm; cbn [mapR] in Hm.
  - inversion Hm. constructor.
  - destruct (rewritePiece (origin u) (baseUrl u) p) as [y|] eqn:Hy; [|discriminate].
    cbn [rbind] in Hm.
    destruct (mapR (rewritePiece (origin u) (baseUrl u)) ps) as [ys|] eqn:Hys;
      [|discriminate].
    cbn [rbind] in Hm. assert (Heq : outs = y :: ys) by congruence. subst outs.
    cbn [List.map concat] in Hs |- *.
    apply Forall_app in Hs. destruct Hs as [Hsrc Hrest].
    apply Forall_app. split; [|apply IH; auto].
    exact (piece_single_line u p y Ho Hp Hsrc Hy).
Qed.

(** A line without a line feed is rewritten to a line without one. *)
Lemma rewriteLine_single_line u line out :
  CodeUnits (origin u) -> CodeUnits (pathname u) -> CodeUnits line ->
  ~ In 10 line -> rewriteLine u (baseUrl u) line = Ok out -> ~ In 10 out.
Proof.
  intros Ho Hp Hl Hn Hr.
  assert (HP : Forall (fun c => c < 0x10000 /\ c <> 10) line).
  { apply List.Forall_forall. intros c Hc. split.
    - unfold CodeUnits in Hl. rewrite List.Forall_forall in Hl. auto.
    - intros ->. exact (Hn Hc). }
  assert (Hout : Forall (fun c => c <> 10) out);
    [|rewrite List.Forall_forall in Hout; intros Hin; exact (Hout 10 Hin eq_refl)].
  destruct (isEmpty (trim line) || startsWith (js "#") (trim line)) eqn:Hk.
  - unfold rewriteLine in Hr. rewrite Hk in Hr.
    destruct (includes uriAttr (trim line)).
    + destruct (replaceURI_Segmentation (replacer u (baseUrl u)) (trim line))
        as [ps [Hseg Hrep]].
      rewrite Hrep in Hr.
      rewrite (mapR_ext _ (rewritePiece (origin u) (baseUrl u))) in Hr
        by (intros [c|v]; [reflexivity | apply replacer_proxied]).
      destruct (mapR (rewritePiece (origin u) (baseUrl u)) ps) as [outs|] eqn:Hm;
        [|discriminate].
      simpl in Hr. inversion Hr; subst out.
      apply (pieces_single_line u ps outs Ho Hp); [|exact Hm].
      rewrite (Segmentation_source _ _ Hseg). apply Forall_trim. exact HP.
    + inversion Hr; subst out. eapply List.Forall_impl; [|exact HP]. simpl; tauto.
  - rewrite (rewriteLine_media u _ line (MediaReference_test _ Hk)) in Hr.
    exact (proxied_single_line u _ out Ho Hp (CodeUnits_trim _ Hl) Hr).
Qed.

(** C3, as the code has it. On a tag line that contains the attribute text
    the rewritten line is the trimmed line in which every occurrence of the
    attribute, from left to right, has its quoted value replaced by the
    proxied URL of that value, each resolved on its own, and nothing else of
    the trimmed line changes; the result is one line again. A tag line that
    does not contain the attribute text, and a blank line, are returned as
    they are. *)
Theorem tag_line_rewritten (parsedUrl : URL) (line : jsstring) :
  Blank line \/ Tag line ->
  let o := origin parsedUrl in
  let b := baseUrl parsedUrl in
  (Contains uriAttr (trim line) ->
   exists ps,
     Segmentation (trim line) ps
     /\ (forall ps', Segmentation (trim line) ps' -> ps' = ps)
     /\ concat (List.map source ps) = trim line
     /\ rewriteLine parsedUrl b line
        = rmap (@concat N) (mapR (rewritePiece o b) ps))
  /\ (~ Contains uriAttr (trim line) -> rewriteLine parsedUrl b line = Ok line)
  /\ (forall out,
        CodeUnits o -> CodeUnits (pathname parsedUrl) -> CodeUnits line ->
        ~ In 10 line -> rewriteLine parsedUrl b line = Ok out -> ~ In 10 out).
Proof.
  intros H o b. split; [|split].
  - rewrite (rewriteLine_tag _ _ _ H).
    intros Hc. apply includes_Contains in Hc. rewrite Hc.
    destruct (replaceURI_Segmentation (replacer parsedUrl b) (trim line))
      as [ps [Hseg Hr]].
    exists ps. split; [exact Hseg|].
    split; [intros ps' H'; symmetry; exact (Segmentation_functional _ _ Hseg _ H')|].
    split; [apply Segmentation_source; exact Hseg|].
    rewrite Hr. f_equal. apply mapR_ext. intros [c|v]; [reflexivity|].
    apply replacer_proxied.
  - rewrite (rewriteLine_tag _ _ _ H).
    intros Hc. apply includes_false in Hc. rewrite Hc. reflexivity.
  - intros out Ho Hp Hl Hn Hr.
    exact (rewriteLine_single_line parsedUrl line out Ho Hp Hl Hn Hr).
Qed.

Lemma key_line_Tag : Tag key_line.
Proof. apply startsWith_HasPrefix. vm_compute. reflexivity. Qed.

Lemma tag_line_rewritten_witness :
  (Blank key_line \/ Tag key_line)
  /\ Contains uriAttr (trim key_line)
  /\ exists ps,
       Segmentation (trim key_line) ps
       /\ (forall ps', Segmentation (trim key_line) ps' -> ps' = ps)
       /\ concat (List.map source ps) = trim key_line
       /\ rewriteLine live_m3u8 (baseUrl live_m3u8) key_line
          = rmap (@concat N)
                 (mapR (rewritePiece (origin live_m3u8) (baseUrl live_m3u8)) ps).
Proof.
  assert (Ht : Blank key_line \/ Tag key_line) by (right; exact key_line_Tag).
  assert (Hc : Contains uriAttr (trim key_line))
    by (apply includes_Contains; vm_compute; reflexivity).
  split; [exact Ht|]. split; [exact Hc|].
  exact (proj1 (tag_line_rewritten live_m3u8 key_line Ht) Hc).
Defined.

(** The tag line of the specification's example under any manifest: the
    text before the attribute stays, the quoted value gives way to its
    proxied URL. *)
Lemma key_line_rewritten u :
  rewriteLine u (baseUrl u) key_line
  = rmap (fun w => js "#EXT-X-KEY:METHOD=AES-128,URI=" ++ [quote] ++ w ++ [quote])
         (proxied (origin u) (baseUrl u) (js "key.bin")).
Proof.
  rewrite (rewriteLine_tag _ _ _ (or_intror key_line_Tag)).
  replace (includes uriAttr (trim key_line)) with true by (vm_compute; reflexivity).
  replace (trim key_line) with key_line by (vm_compute; reflexivity).
  change key_line with (js "#EXT-X-KEY:METHOD=AES-128," ++ uriAttr ++ js "key.bin" ++ [quote]).
  change (js "#EXT-X-KEY:METHOD=AES-128,")
    with [35; 69; 88; 84; 45; 88; 45; 75; 69; 89; 58; 77; 69; 84; 72; 79; 68;
          61; 65; 69; 83; 45; 49; 50; 56; 44].
  simpl app.
  repeat (rewrite replaceURI_None by (vm_compute; reflexivity)).
  rewrite (replaceURI_Some _ _ (js "key.bin") []) by (vm_compute; reflexivity).
  rewrite replacer_proxied. simp replaceURI.
  destruct (proxied (origin u) (baseUrl u) (js "key.bin")) as [w|]; simpl; [|reflexivity].
  rewrite app_nil_r. reflexivity.
Qed.

(** The same line under the manifest of the examples: one line, with the
    method untouched. *)
Example key_line_example :
  rewriteLine live_m3u8 (baseUrl live_m3u8) key_line
  = Ok (js "#EXT-X-KEY:METHOD=AES-128,URI=" ++ [quote]
        ++ js "/api/proxy-manifest?url=https%3A%2F%2Fhost%2Fpath%2Fkey.bin"
        ++ [quote])
  /\ ~ In 10 (js "#EXT-X-KEY:METHOD=AES-128,URI=" ++ [quote]
              ++ js "/api/proxy-manifest?url=https%3A%2F%2Fhost%2Fpath%2Fkey.bin"
              ++ [quote]).
Proof.
  split; [vm_compute; reflexivity|].
  vm_compute. intuition discriminate.
Qed.

(** C3 as the specification states it fails on a tag line that ends in a
    carriage return: the line is trimmed as well, so more than the quoted
    value changes. *)
Lemma tag_line_trimmed_counterexample :
  Tag key_line_cr
  /\ exists out,
       rewriteLine live_m3u8 (baseUrl live_m3u8) key_line_cr = Ok out
       /\ ~ exists w,
             out = js "#EXT-X-KEY:METHOD=AES-128,URI=" ++ [quote] ++ w ++ [quote] ++ [13].
Proof.
  split; [apply startsWith_HasPrefix; vm_compute; reflexivity|].
  eexists. split; [vm_compute; reflexivity|].
  intros [w Hw]. apply (f_equal (fun l => List.last l 0)) in Hw.
  rewrite !app_assoc in Hw. rewrite List.last_last in Hw.
  vm_compute in Hw. discriminate.
Qed.

End TagLineRewriting.

(** ** The resolution rule in both places *)

Section ResolutionRule.
Import JSString Spec Proxy.

(** Lines 81 to 93 on a tag line that holds the attribute text: every
    attribute of the trimmed line is rewritten by the rule of the media
    reference lines. *)
Lemma rewriteLine_attributes u line ps :
  Blank line \/ Tag line -> Contains uriAttr (trim line) ->
  Segmentation (trim line) ps ->
  rewriteLine u (baseUrl u) line
  = rmap (@concat N) (mapR (rewritePiece (origin u) (baseUrl u)) ps).
Proof.
  intros H Hc Hseg. rewrite (rewriteLine_tag _ _ _ H).
  apply includes_Contains in Hc. rewrite Hc.
  destruct (replaceURI_Segmentation (replacer u (baseUrl u)) (trim line))
    as [ps0 [Hseg0 Hr]].
  rewrite (Segmentation_functional _ _ Hseg _ Hseg0), Hr.
  f_equal. apply mapR_ext. intros [c|v]; [reflexivity | apply replacer_proxied].
Qed.

Lemma key_line_Segmentation : Segmentation (trim key_line) key_line_pieces.
Proof.
  replace (trim key_line) with key_line by (vm_compute; reflexivity).
  unfold key_line, key_line_pieces.
  change (js "#EXT-X-KEY:METHOD=AES-128,URI=")
    with ([35; 69; 88; 84; 45; 88; 45; 75; 69; 89; 58; 77; 69; 84; 72; 79; 68;
           61; 65; 69; 83; 45; 49; 50; 56; 44] ++ js "URI=").
  change (js "#EXT-X-KEY:METHOD=AES-128,")
    with [35; 69; 88; 84; 45; 88; 45; 75; 69; 89; 58; 77; 69; 84; 72; 79; 68;
          61; 65; 69; 83; 45; 49; 50; 56; 44].
  cbn [List.map app].
  repeat (apply seg_chr; [apply matchURI_None; vm_compute; reflexivity|]).
  apply seg_attr with (rest := []); [|apply seg_nil].
  apply matchURI_Occurs. vm_compute. reflexivity.
Qed.

(** C1. Every reference value of a manifest, a trimmed media reference
    line or the quoted value of a URI attribute of a tag line, is resolved
    by one rule: a value that starts with [http] is taken as it is, a value
    that starts with a slash is appended to the origin, any other value is
    appended to the base directory, which is the origin followed by the path
    of the target up to and including its last slash. A media reference
    line is rewritten to the proxied URL of its trimmed text; a tag line
    that holds the attribute text is rewritten piece by piece, each
    attribute of the line to the attribute with the proxied URL of its
    value; and the proxied URL of a value is the proxy path followed by the
    percent-encoded URL the rule resolves the value to. *)
Theorem resolution_rule (parsedUrl : URL) :
  let o := origin parsedUrl in
  let b := baseUrl parsedUrl in
  (exists dir, b = o ++ dir /\ DirectoryOf (pathname parsedUrl) dir)
  /\ (forall line, MediaReference line ->
        rewriteLine parsedUrl b line = proxied o b (trim line))
  /\ (forall line,
        Blank line \/ Tag line -> Contains uriAttr (trim line) ->
        (exists ps, Segmentation (trim line) ps)
        /\ (forall ps,
              Segmentation (trim line) ps ->
              rewriteLine parsedUrl b line
              = rmap (@concat N) (mapR (rewritePiece o b) ps)))
  /\ (forall v,
        rewritePiece o b (Attr v)
        = rmap (fun w => uriAttr ++ w ++ [quote]) (proxied o b v)
        /\ proxied o b v
           = rmap (app (js "/api/proxy-manifest?url="))
                  (URI.encodeURIComponent (resolve o b v)))
  /\ (forall p1,
        replacer parsedUrl b p1
        = rmap (fun w => uriAttr ++ w ++ [quote]) (proxied o b p1))
  /\ (forall v,
        (HasPrefix (js "http") v -> resolve o b v = v)
        /\ (~ HasPrefix (js "http") v -> HasPrefix (js "/") v ->
            resolve o b v = o ++ v)
        /\ (~ HasPrefix (js "http") v -> ~ HasPrefix (js "/") v ->
            resolve o b v = b ++ v)).
Proof.
  cbv zeta. split; [apply baseUrl_directory|].
  split; [intros line; apply rewriteLine_media|].
  split.
  { intros line H Hc. split.
    - destruct (replaceURI_Segmentation (replacer parsedUrl (baseUrl parsedUrl))
                  (trim line)) as [ps [Hseg _]].
      exists ps. exact Hseg.
    - intros ps Hseg. exact (rewriteLine_attributes parsedUrl line ps H Hc Hseg). }
  split; [intros v; split; reflexivity|].
  split; [apply replacer_proxied | intros v; apply resolve_cases].
Qed.

(** The relative references of the specification's examples: a media
    reference line, and the key of a tag line. *)
Lemma resolution_rule_witness :
  MediaReference (js "segment.ts")
  /\ rewriteLine live_m3u8 (baseUrl live_m3u8) (js "segment.ts")
     = Ok (js "/api/proxy-manifest?url=https%3A%2F%2Fhost%2Fpath%2Fsegment.ts")
  /\ (Blank key_line \/ Tag key_line)
  /\ Contains uriAttr (trim key_line)
  /\ Segmentation (trim key_line) key_line_pieces
  /\ rewriteLine live_m3u8 (baseUrl live_m3u8) key_line
     = Ok (js "#EXT-X-KEY:METHOD=AES-128,URI=" ++ [quote]
           ++ js "/api/proxy-manifest?url=https%3A%2F%2Fhost%2Fpath%2Fkey.bin"
           ++ [quote]).
Proof.
  assert (Hm : MediaReference (js "segment.ts"))
    by (apply MediaReference_test; vm_compute; reflexivity).
  assert (Ht : Blank key_line \/ Tag key_line) by (right; exact key_line_Tag).
  assert (Hc : Contains uriAttr (trim key_line))
    by (apply includes_Contains; vm_compute; reflexivity).
  destruct (resolution_rule live_m3u8) as [_ [Hmedia [Htag _]]].
  split; [exact Hm|]. split.
  { rewrite (Hmedia (js "segment.ts") Hm). vm_compute. reflexivity. }
  split; [exact Ht|]. split; [exact Hc|].
  split; [exact key_line_Segmentation|].
  rewrite (proj2 (Htag key_line Ht Hc) key_line_pieces key_line_Segmentation).
  vm_compute. reflexivity.
Defined.

End ResolutionRule.

(** ** Manifests of comments only *)

Section CommentOnlyManifests.
Import JSString Spec Proxy.

(** C8, as the code has it. A manifest whose lines are all blank or tags,
    none of them containing the attribute text, is rewritten to itself: the
    body sent is the body received, character for character. *)
Theorem comment_only_manifest_unchanged (parsedUrl : URL) (text : jsstring) :
  (forall line, In line (split_lf text) ->
     (Blank line \/ Tag line) /\ ~ Contains uriAttr (trim line)) ->
  rewriteManifest parsedUrl text = Ok text.
Proof.
  intros H. unfold rewriteManifest, rewrittenLines.
  rewrite mapR_Ok_id.
  - simpl. rewrite join_split_lf. reflexivity.
  - intros line Hin. destruct (H line Hin) as [Hk Hc].
    rewrite (rewriteLine_tag _ _ _ Hk).
    apply includes_false in Hc. rewrite Hc. reflexivity.
Qed.

Lemma comment_only_manifest_unchanged_witness :
  (forall line, In line (split_lf (js "#EXTM3U")) ->
     (Blank line \/ Tag line) /\ ~ Contains uriAttr (trim line))
  /\ rewriteManifest live_m3u8 (js "#EXTM3U") = Ok (js "#EXTM3U").
Proof.
  assert (H : forall line, In line (split_lf (js "#EXTM3U")) ->
                (Blank line \/ Tag line) /\ ~ Contains uriAttr (trim line)).
  { intros line [<- | []]. split.
    - right. apply startsWith_HasPrefix. vm_compute. reflexivity.
    - apply includes_false. vm_compute. reflexivity. }
  split; [exact H|].
  exact (comment_only_manifest_unchanged live_m3u8 (js "#EXTM3U") H).
Defined.

(** C8 as the specification states it fails on a manifest that is one tag
    line with a URI attribute: every line is a comment line, and the body
    changes. *)
Lemma comment_only_manifest_counterexample :
  (forall line, In line (split_lf key_line) -> Blank line \/ Tag line)
  /\ (exists out, rewriteManifest live_m3u8 key_line = Ok out /\ out <> key_line).
Proof.
  split.
  - intros line [<- | []]. right. apply startsWith_HasPrefix. vm_compute. reflexivity.
  - eexists. split; [vm_compute; reflexivity|]. vm_compute. discriminate.
Qed.

End CommentOnlyManifests.

(** ** The handler *)

(** Unfolds the computations of the handler down to the state they leave. *)
Ltac run_handler :=
  unfold handle, proxyManifest, tryCatch, tryBlock, catchBlock, await_fetch,
    await_text, await_arrayBuffer, console_error, passThrough, res_status,
    res_set, res_send, emit, onRes, bind, ret, lift, initial in *;
  cbn [fst snd res trace statusCode headers sent app] in *.

(** Case analysis on the conditions of a nest of conditionals, innermost
    scrutinee first. *)
Ltac inner_cases :=
  repeat match goal with
         | |- context [match ?x with _ => _ end] =>
             lazymatch x with
             | context [match _ with _ => _ end] => fail
             | _ => destruct x
             end
         end.

Section HandlerFacts.
Import JSString Spec Proxy.

Variable fetch : jsstring -> gmap string jsstring -> result Response.
Variable newURL : jsstring -> result URL.

Lemma truthy_Some url : url <> [] -> truthy (Some url) = true.
Proof. destruct url; [congruence | reflexivity]. Qed.

(** C6. A request whose [url] parameter is missing or empty is answered with
    status 400 and the text [URL required], and nothing is fetched. *)
Theorem missing_url_rejected (req : Request) :
  query_url req = None \/ query_url req = Some [] ->
  let st := handle fetch newURL req in
  statusCode (res st) = 400
  /\ sent (res st) = [BodyText (js "URL required")]
  /\ trace st = [].
Proof.
  intros [H | H]; run_handler; rewrite H; simpl; auto.
Qed.

(** With a status that is sent with a body, 200, 400 and 500 among them, the
    body handed to [res.send] is the body of the response. *)
Lemma wire_sent (r : Res) :
  Express.bodiless (statusCode r) = false -> Express.wire r = sent r.
Proof.
  intros H. unfold Express.wire, Express.sendBody. rewrite H. apply map_id.
Qed.

(** C5, as the program has it. An upstream status that is neither 2xx nor
    206 ends the request: the response has the upstream status, the handler
    hands the text [Target returned <status>] to [res.send], and the body of
    the upstream response is not read: the fetch is the only event. The
    text is the body of the response for every such status but 304 and the
    informational ones, which Express and Node send without a body. The
    status is one that Node accepts in a status line, 100 to 999, as the
    status of an HTTP response is. *)
Theorem upstream_status_forwarded (req : Request) (url : jsstring)
    (response : Response) :
  query_url req = Some url -> url <> [] ->
  fetch url (fetchHeaders req) = Ok response ->
  ok response = false -> status response <> 206 ->
  Express.validStatus (status response) = true ->
  let st := handle fetch newURL req in
  statusCode (res st) = status response
  /\ sent (res st)
     = [BodyText (js "Target returned " ++ ofNumber (status response))]
  /\ Express.wire (res st)
     = [if (status response =? 304) || Express.informational (status response)
        then BodyText []
        else BodyText (js "Target returned " ++ ofNumber (status response))]
  /\ trace st = [EvFetch url (fetchHeaders req)].
Proof.
  intros Hq Hne Hf Hok Hs Hv.
  assert (H206 : (status response =? 206) = false) by (apply N.eqb_neq; exact Hs).
  assert (Hb : Express.bodiless (status response)
               = (status response =? 304) || Express.informational (status response)).
  { unfold Express.bodiless, ok in *.
    destruct (status response =? 204) eqn:E4.
    - apply N.eqb_eq in E4. rewrite E4 in Hok. discriminate.
    - destruct (status response =? 205) eqn:E5.
      + apply N.eqb_eq in E5. rewrite E5 in Hok. discriminate.
      + reflexivity. }
  run_handler. rewrite Hq, (truthy_Some _ Hne). simpl.
  rewrite Hf, Hok, H206. simpl.
  unfold Express.wire, Express.sendBody. simpl. rewrite Hb.
  repeat split; auto.
Qed.

(** 206 is a 2xx status: the second test of line 61 never decides. *)
Lemma partial_content_is_ok (response : Response) :
  status response = 206 -> ok response = true.
Proof. intros H. unfold ok. rewrite H. reflexivity. Qed.

Lemma passThrough_run response field st :
  passThrough response field st
  = (Ok tt, state (statusCode (res st))
                  (passHeader response field (headers (res st)))
                  (sent (res st)) (trace st)).
Proof.
  unfold passThrough, passHeader, res_set, onRes, ret, state.
  destruct (truthy (headers_get response field)); [reflexivity|].
  destruct st as [[c h b] t]. reflexivity.
Qed.

(** The [try] block, path by path. *)
Lemma tryBlock_outcome req url :
  tryBlock fetch newURL req url initial = tryOutcome fetch newURL req url.
Proof.
  unfold tryBlock, tryOutcome, await_fetch, bind at 1 2, emit, lift, initial.
  cbn [res trace app].
  destruct (fetch url (fetchHeaders req)) as [response|e]; [|reflexivity].
  destruct (negb (ok response) && negb (status response =? 206)); [reflexivity|].
  unfold bind at 1. rewrite passThrough_run.
  unfold bind at 1. rewrite passThrough_run.
  unfold bind at 1. rewrite passThrough_run.
  unfold state at 1 2 3. cbn [res trace statusCode headers sent].
  fold (passedHeaders response).
  destruct (isManifest (default [] (headers_get response "Content-Type")) url).
  - unfold await_text, bind, emit, lift, res_set, res_send, onRes.
    cbn [res trace statusCode headers sent app].
    destruct (text response) as [t|e]; [|reflexivity].
    destruct (newURL url) as [u|e]; [|reflexivity].
    destruct (rewrittenLines u t) as [ls|e]; reflexivity.
  - unfold await_arrayBuffer, bind, emit, lift, res_set, res_send, onRes.
    cbn [res trace statusCode headers sent app].
    destruct (arrayBuffer response) as [buffer|e]; reflexivity.
Qed.

(** A request with a [url]: the [try] block, and the [catch] block on what it
    throws. *)
Lemma handle_outcome req url :
  query_url req = Some url -> url <> [] ->
  handle fetch newURL req
  = match tryOutcome fetch newURL req url with
    | (Ok _, st) => st
    | (Throw e, st) =>
        state 500 (headers (res st)) (sent (res st) ++ [BodyText (message e)])
              (trace st ++ [EvConsoleError (js "Proxy Error:") (message e)])
    end.
Proof.
  intros Hq Hne. unfold handle, proxyManifest.
  rewrite Hq, (truthy_Some _ Hne). cbn [negb].
  change (default [] (Some url)) with url.
  unfold tryCatch. rewrite tryBlock_outcome.
  destruct (tryOutcome fetch newURL req url) as [[[]|e] st]; [reflexivity|].
  destruct st as [[c h b] t]. reflexivity.
Qed.

(** Nothing has been sent when the [try] block throws. *)
Lemma tryBlock_throw req url e st' :
  tryBlock fetch newURL req url initial = (Throw e, st') ->
  sent (res st') = [].
Proof.
  rewrite tryBlock_outcome. unfold tryOutcome. intros H.
  repeat match type of H with
         | context [match ?x with _ => _ end] => destruct x eqn:?
         end;
    inversion H; subst; reflexivity.
Qed.

(** Every path of the [try] block that does not throw sends once. *)
Lemma tryBlock_ok req url st' :
  tryBlock fetch newURL req url initial = (Ok tt, st') ->
  length (sent (res st')) = 1%nat.
Proof.
  rewrite tryBlock_outcome. unfold tryOutcome. intros H.
  repeat match type of H with
         | context [match ?x with _ => _ end] => destruct x eqn:?
         end;
    inversion H; subst; reflexivity.
Qed.

(** C9. Whatever is thrown in the [try] block, by [fetch], by a body reader,
    by [new URL] or by the rewriting, is answered with status 500 and the
    message of the exception as the text of the one response; and every
    request has exactly one response. *)
Theorem exception_answered_500 (req : Request) (url : jsstring) (e : Exn)
    (st' : HState) :
  query_url req = Some url -> url <> [] ->
  tryBlock fetch newURL req url initial = (Throw e, st') ->
  let st := handle fetch newURL req in
  statusCode (res st) = 500
  /\ sent (res st) = [BodyText (message e)]
  /\ length (sent (res st)) = 1%nat.
Proof.
  intros Hq Hne Ht. pose proof (tryBlock_throw _ _ _ _ Ht) as Hs.
  cbv zeta. rewrite (handle_outcome _ _ Hq Hne).
  rewrite <- tryBlock_outcome, Ht. cbn [state res statusCode sent].
  rewrite Hs. repeat split; reflexivity.
Qed.

(** Every request has exactly one response. *)
Lemma one_response (req : Request) :
  length (sent (res (handle fetch newURL req))) = 1%nat.
Proof.
  destruct (query_url req) as [[|c url]|] eqn:Hq.
  - unfold handle, proxyManifest. rewrite Hq. reflexivity.
  - rewrite (handle_outcome req (c :: url) Hq ltac:(discriminate)).
    rewrite <- tryBlock_outcome.
    destruct (tryBlock fetch newURL req (c :: url) initial) as [[[]|e] st] eqn:Ht.
    + exact (tryBlock_ok _ _ _ Ht).
    + cbn [state res sent]. rewrite (tryBlock_throw _ _ _ _ Ht). reflexivity.
  - unfold handle, proxyManifest. rewrite Hq. reflexivity.
Qed.

(** Where the exceptions come from: each of them leaves the [try] block. *)
Lemma exception_sources (req : Request) (url : jsstring) (e : Exn) :
  (fetch url (fetchHeaders req) = Throw e ->
   exists st', tryBlock fetch newURL req url initial = (Throw e, st'))
  /\ (forall response,
        fetch url (fetchHeaders req) = Ok response -> ok response = true ->
        let contentType := default [] (headers_get response "Content-Type") in
        (isManifest contentType url = true ->
         (text response = Throw e
          \/ (exists t, text response = Ok t /\ newURL url = Throw e)
          \/ (exists t u, text response = Ok t /\ newURL url = Ok u
                          /\ rewrittenLines u t = Throw e)) ->
         exists st', tryBlock fetch newURL req url initial = (Throw e, st'))
        /\ (isManifest contentType url = false ->
            arrayBuffer response = Throw e ->
            exists st', tryBlock fetch newURL req url initial = (Throw e, st'))).
Proof.
  rewrite tryBlock_outcome. unfold tryOutcome. split.
  - intros Hf. rewrite Hf. eexists; reflexivity.
  - intros response Hf Hok. cbv zeta. rewrite Hf, Hok. cbn [negb andb]. split.
    + intros Hm H. rewrite Hm.
      destruct H as [Ht | [[t [Ht Hu]] | [t [u [Ht [Hu Hr]]]]]];
        rewrite Ht; try rewrite Hu; try rewrite Hr; eexists; reflexivity.
    + intros Hm Ha. rewrite Hm, Ha. eexists; reflexivity.
Qed.

(** Line 73 in the words of the specification: the second test is subsumed
    by the first. *)
Lemma isManifest_Contains contentType url :
  isManifest contentType url = true
  <-> Contains (js "mpegurl") contentType \/ Contains (js ".m3u8") url.
Proof.
  unfold isManifest. rewrite !orb_true_iff, !includes_Contains. split.
  - intros [[H | [a [b H]]] | H]; auto.
    left. exists (a ++ js "apple."), b. rewrite H, <- !app_assoc. reflexivity.
  - intros [H | H]; auto.
Qed.

(** C4, as the code has it. A response with a 2xx status is taken for
    manifest text, its body read as text and rewritten, exactly when its
    Content-Type contains [mpegurl] or the target URL contains [.m3u8]
    anywhere; otherwise the body is read as bytes and sent as it is. *)
Theorem manifest_classification (req : Request) (url : jsstring)
    (response : Response) :
  query_url req = Some url -> url <> [] ->
  fetch url (fetchHeaders req) = Ok response -> ok response = true ->
  let contentType := default [] (headers_get response "Content-Type") in
  let st := handle fetch newURL req in
  let manifest :=
    Contains (js "mpegurl") contentType \/ Contains (js ".m3u8") url in
  (manifest <-> In EvText (trace st))
  /\ (manifest ->
      forall t u out,
        text response = Ok t -> newURL url = Ok u ->
        rewriteManifest u t = Ok out ->
        sent (res st) = [BodyText out])
  /\ (~ manifest ->
      In EvArrayBuffer (trace st)
      /\ forall buffer,
           arrayBuffer response = Ok buffer ->
           sent (res st) = [BodyBuffer buffer]).
Proof.
  intros Hq Hne Hf Hok contentType st manifest.
  assert (Hst : st = handle fetch newURL req) by reflexivity.
  rewrite (handle_outcome _ _ Hq Hne) in Hst. unfold tryOutcome in Hst.
  rewrite Hf, Hok in Hst. cbn [negb andb] in Hst. fold contentType in Hst.
  pose proof (isManifest_Contains contentType url) as Hm. fold manifest in Hm.
  destruct (isManifest contentType url).
  - assert (HM : manifest) by (apply Hm; reflexivity).
    split; [|split].
    + split; [intros _ | intros _; exact HM]. rewrite Hst.
      destruct (text response); [destruct (newURL url);
        [destruct (rewrittenLines _ _)|]|]; simpl; auto.
    + intros _ t u out Ht Hu Hr. rewrite Hst, Ht, Hu.
      unfold rewriteManifest in Hr.
      destruct (rewrittenLines u t) as [ls|]; [|discriminate].
      simpl in Hr. inversion Hr. reflexivity.
    + intros Hn. contradiction.
  - assert (HM : ~ manifest) by (intros H; apply Hm in H; discriminate).
    split; [|split].
    + split; [intros H; contradiction|]. rewrite Hst.
      destruct (arrayBuffer response); simpl;
        intros H; repeat (destruct H as [H|H]; try discriminate); contradiction.
    + intros H; contradiction.
    + intros _. split.
      * rewrite Hst. destruct (arrayBuffer response); simpl; auto.
      * intros buffer Hb. rewrite Hst, Hb. reflexivity.
Qed.

Lemma range_forwarded (req : Request) (range : jsstring) :
  headers_range req = Some range -> range <> [] ->
  fetchHeaders req !! "Range"%string = Some range.
Proof.
  intros H Hne. unfold fetchHeaders. rewrite H, (truthy_Some _ Hne).
  apply lookup_insert_eq.
Qed.

Lemma fetch_comes_first (req : Request) (url : jsstring) :
  query_url req = Some url -> url <> [] ->
  exists rest,
    trace (handle fetch newURL req) = EvFetch url (fetchHeaders req) :: rest.
Proof.
  intros Hq Hne. rewrite (handle_outcome _ _ Hq Hne). unfold tryOutcome.
  inner_cases; eexists; reflexivity.
Qed.

Lemma passedHeaders_lookup response field v :
  field = "Content-Range"%string \/ field = "Accept-Ranges"%string
  \/ field = "Content-Length"%string ->
  headers_get response field = Some v -> v <> [] ->
  passedHeaders response !! field = Some v.
Proof.
  intros Hfield Hg Hne. unfold passedHeaders, passHeader.
  destruct Hfield as [-> | [-> | ->]]; rewrite Hg, (truthy_Some _ Hne);
    repeat match goal with
           | |- context [if ?b then _ else _] => destruct b
           end;
    cbn [default]; simplify_map_eq; reflexivity.
Qed.

(** Lines 68-70: a header of the three that the upstream response carries
    with a value is on the response, with that value, whatever follows. *)
Lemma header_passed_through (req : Request) (url : jsstring)
    (response : Response) field v :
  query_url req = Some url -> url <> [] ->
  fetch url (fetchHeaders req) = Ok response -> ok response = true ->
  field = "Content-Range"%string \/ field = "Accept-Ranges"%string
  \/ field = "Content-Length"%string ->
  headers_get response field = Some v -> v <> [] ->
  headers (res (handle fetch newURL req)) !! field = Some v.
Proof.
  intros Hq Hne Hf Hok Hfield Hg Hv.
  pose proof (passedHeaders_lookup response field v Hfield Hg Hv) as Hp.
  rewrite (handle_outcome _ _ Hq Hne). unfold tryOutcome.
  rewrite Hf, Hok. cbn [negb andb].
  inner_cases;
    cbn [state res headers]; unfold manifestHeaders, binaryHeaders;
    destruct Hfield as [-> | [-> | ->]];
    repeat (rewrite lookup_insert_ne by discriminate); exact Hp.
Qed.

(** On a 2xx response [res.status] is not called unless something throws. *)
Lemma success_status (req : Request) (url : jsstring) (response : Response) :
  query_url req = Some url -> url <> [] ->
  fetch url (fetchHeaders req) = Ok response -> ok response = true ->
  statusCode (res (handle fetch newURL req)) = 200
  \/ statusCode (res (handle fetch newURL req)) = 500.
Proof.
  intros Hq Hne Hf Hok. rewrite (handle_outcome _ _ Hq Hne). unfold tryOutcome.
  rewrite Hf, Hok. cbn [negb andb].
  inner_cases; cbn [state res statusCode]; auto.
Qed.

(** C7, what the code does. The [Range] header of the caller goes upstream as
    it is, and a [Content-Range] the upstream sends back is copied; but the
    status 206 of the upstream response is not: the response of the proxy
    keeps the status 200 of a fresh response object (or 500 after an
    exception). *)
Theorem partial_content_status_lost (req : Request) (url range value : jsstring)
    (response : Response) :
  query_url req = Some url -> url <> [] ->
  headers_range req = Some range -> range <> [] ->
  fetch url (fetchHeaders req) = Ok response ->
  status response = 206 ->
  headers_get response "Content-Range" = Some value -> value <> [] ->
  let st := handle fetch newURL req in
  fetchHeaders req !! "Range"%string = Some range
  /\ headers (res st) !! "Content-Range"%string = Some value
  /\ statusCode (res st) <> 206.
Proof.
  intros Hq Hne Hr Hrne Hf Hs Hg Hv st.
  pose proof (partial_content_is_ok response Hs) as Hok.
  split; [exact (range_forwarded _ _ Hr Hrne)|]. split.
  - exact (header_passed_through _ _ _ _ _ Hq Hne Hf Hok (or_introl eq_refl) Hg Hv).
  - destruct (success_status _ _ _ Hq Hne Hf Hok) as [H | H];
      unfold st; rewrite H; discriminate.
Qed.

End HandlerFacts.

(** ** The handler on the inputs of the examples *)

Lemma upstream_status_forwarded_witness :
  ok forbidden = false /\ status forbidden <> 206
  /\ Express.validStatus (status forbidden) = true
  /\ (let st := handle (fun _ _ => Ok forbidden) (fun _ => Ok live_m3u8)
                       (request (js "https://host/path/live.m3u8") None) in
      statusCode (res st) = 403
      /\ sent (res st) = [BodyText (js "Target returned 403")]
      /\ Express.wire (res st) = [BodyText (js "Target returned 403")]
      /\ trace st = [EvFetch (js "https://host/path/live.m3u8")
                             (fetchHeaders (request (js "https://host/path/live.m3u8") None))]).
Proof.
  assert (H : status forbidden <> 206) by discriminate.
  split; [reflexivity|]. split; [exact H|]. split; [reflexivity|].
  destruct (upstream_status_forwarded
              (fun _ _ => Ok forbidden) (fun _ => Ok live_m3u8)
              (request (js "https://host/path/live.m3u8") None)
              (js "https://host/path/live.m3u8") forbidden
              eq_refl ltac:(discriminate) eq_refl eq_refl H eq_refl)
    as [H1 [H2 [H3 H4]]].
  cbv zeta. rewrite H1, H2, H3, H4. repeat split; reflexivity.
Defined.

(** C5 as the specification states it fails for an upstream 304: the status
    is neither 2xx nor 206 and is forwarded, and the handler hands the text
    [Target returned 304] to [res.send], but the response goes out without
    a body. *)
Lemma not_modified_counterexample :
  let st := handle (always not_modified) (parses live_m3u8)
                   (request (js "https://host/path/live.m3u8") None) in
  ok not_modified = false /\ status not_modified <> 206
  /\ statusCode (res st) = 304
  /\ sent (res st) = [BodyText (js "Target returned 304")]
  /\ Express.wire (res st) = [BodyText []]
  /\ Express.wire (res st) <> [BodyText (js "Target returned 304")].
Proof.
  cbv zeta. split; [reflexivity|]. split; [discriminate|].
  split; [reflexivity|]. split; [reflexivity|]. split; [reflexivity|].
  vm_compute. discriminate.
Qed.

Lemma missing_url_rejected_witness :
  (query_url request_without_url = None \/ query_url request_without_url = Some [])
  /\ (let st := handle (fun _ _ => Ok forbidden) (fun _ => Ok live_m3u8)
                       request_without_url in
      statusCode (res st) = 400
      /\ sent (res st) = [BodyText (js "URL required")]
      /\ trace st = []).
Proof.
  assert (H : query_url request_without_url = None
              \/ query_url request_without_url = Some []) by (left; reflexivity).
  split; [exact H|].
  exact (missing_url_rejected (fun _ _ => Ok forbidden) (fun _ => Ok live_m3u8)
           request_without_url H).
Defined.

Lemma exception_answered_500_witness :
  let req := request (js "https://host/path/live.m3u8") None in
  let fetch := fun (_ : jsstring) (_ : gmap string jsstring) =>
                 @Throw Response fetch_failed in
  let newURL := fun _ : jsstring => Ok live_m3u8 in
  tryBlock fetch newURL req (js "https://host/path/live.m3u8") initial
  = (Throw fetch_failed,
     state 200 ∅ [] [EvFetch (js "https://host/path/live.m3u8") (fetchHeaders req)])
  /\ statusCode (res (handle fetch newURL req)) = 500
  /\ sent (res (handle fetch newURL req)) = [BodyText (js "fetch failed")].
Proof.
  intros req fetch newURL.
  assert (Ht : tryBlock fetch newURL req (js "https://host/path/live.m3u8") initial
               = (Throw fetch_failed,
                  state 200 ∅ [] [EvFetch (js "https://host/path/live.m3u8")
                                          (fetchHeaders req)]))
    by reflexivity.
  split; [exact Ht|].
  destruct (exception_answered_500 fetch newURL req
              (js "https://host/path/live.m3u8") fetch_failed _
              eq_refl ltac:(discriminate) Ht) as [H1 [H2 _]].
  split; [exact H1 | exact H2].
Defined.

Lemma manifest_classification_witness :
  let fetch := fun (_ : jsstring) (_ : gmap string jsstring) => Ok segment_response in
  let newURL := fun _ : jsstring => Ok segment_URL in
  let st := handle fetch newURL (request segment_url None) in
  ok segment_response = true
  /\ (Spec.Contains (js "mpegurl") (js "video/mp2t")
      \/ Spec.Contains (js ".m3u8") segment_url)
  /\ In EvText (trace st)
  /\ sent (res st)
     = [BodyText (js "/api/proxy-manifest?url=http%3A%2F%2Fhost%2Flive.m3u8%2Fdata")].
Proof.
  intros fetch newURL st.
  assert (Hm : Spec.Contains (js "mpegurl") (js "video/mp2t")
               \/ Spec.Contains (js ".m3u8") segment_url)
    by (right; apply includes_Contains; vm_compute; reflexivity).
  destruct (manifest_classification fetch newURL (request segment_url None)
              segment_url segment_response eq_refl ltac:(discriminate)
              eq_refl eq_refl)
    as [H1 [H2 _]].
  split; [reflexivity|]. split; [exact Hm|]. split; [exact (proj1 H1 Hm)|].
  apply (H2 Hm (js "data") segment_URL); [reflexivity | reflexivity |].
  vm_compute. reflexivity.
Defined.

(** C4 as the specification states it fails on a segment whose URL has
    [.m3u8] in a directory name: the Content-Type has no HLS marker and the
    URL does not end with [.m3u8], yet the body is read as text and
    rewritten instead of being forwarded as it is. *)
Lemma classification_counterexample :
  let fetch := fun (_ : jsstring) (_ : gmap string jsstring) => Ok segment_response in
  let newURL := fun _ : jsstring => Ok segment_URL in
  let st := handle fetch newURL (request segment_url None) in
  ~ Spec.Contains (js "mpegurl")
      (default [] (headers_get segment_response "Content-Type"))
  /\ ~ Spec.HasSuffix (js ".m3u8") segment_url
  /\ ~ Spec.HasSuffix (js ".m3u8") (pathname segment_URL)
  /\ arrayBuffer segment_response = Ok (js "data")
  /\ trace st = [EvFetch segment_url (fetchHeaders (request segment_url None)); EvText]
  /\ sent (res st)
     = [BodyText (js "/api/proxy-manifest?url=http%3A%2F%2Fhost%2Flive.m3u8%2Fdata")]
  /\ sent (res st) <> [BodyBuffer (js "data")].
Proof.
  assert (Hsuffix : forall s, List.last s 0 = 115 -> ~ Spec.HasSuffix (js ".m3u8") s).
  { intros s Hs [a Ha]. apply (f_equal (fun l => List.last l 0)) in Ha.
    change (js ".m3u8") with ([46; 109; 51; 117] ++ [56]) in Ha.
    rewrite app_assoc, List.last_last in Ha. rewrite Hs in Ha. discriminate. }
  cbv zeta. split; [apply includes_false; vm_compute; reflexivity|].
  split; [apply Hsuffix; vm_compute; reflexivity|].
  split; [apply Hsuffix; vm_compute; reflexivity|].
  split; [reflexivity|]. split; [vm_compute; reflexivity|].
  split; [vm_compute; reflexivity|]. vm_compute. discriminate.
Qed.

Lemma partial_content_status_lost_witness :
  let url := js "https://host/seg.ts" in
  let req := request url (Some (js "bytes=0-1023")) in
  let fetch := fun (_ : jsstring) (_ : gmap string jsstring) => Ok partial_content in
  let newURL := fun _ : jsstring => Ok live_m3u8 in
  let st := handle fetch newURL req in
  status partial_content = 206
  /\ headers_get partial_content "Content-Range" = Some (js "bytes 0-1023/4096")
  /\ fetchHeaders req !! "Range"%string = Some (js "bytes=0-1023")
  /\ headers (res st) !! "Content-Range"%string = Some (js "bytes 0-1023/4096")
  /\ statusCode (res st) <> 206.
Proof.
  intros url req fetch newURL st.
  split; [reflexivity|]. split; [reflexivity|].
  exact (partial_content_status_lost fetch newURL req url (js "bytes=0-1023")
           (js "bytes 0-1023/4096") partial_content
           eq_refl ltac:(discriminate) eq_refl ltac:(discriminate)
           eq_refl eq_refl eq_refl ltac:(discriminate)).
Defined.

(** The failing input of C7, run: the partial response goes out as 200. *)
Example partial_content_sent_as_200 :
  let url := js "https://host/seg.ts" in
  let req := request url (Some (js "bytes=0-1023")) in
  let st := handle (fun _ _ => Ok partial_content) (fun _ => Ok live_m3u8) req in
  statusCode (res st) = 200
  /\ sent (res st) = [BodyBuffer (js "segment bytes")]
  /\ headers (res st) !! "Content-Range"%string = Some (js "bytes 0-1023/4096").
Proof. cbv zeta. repeat split; vm_compute; reflexivity. Qed.

(** * More of the code

    ** The manifest proxy: what goes upstream and what comes back *)

Section ProxyTraffic.
Import JSString Spec Proxy.

Variable fetch : jsstring -> gmap string jsstring -> result Response.
Variable newURL : jsstring -> result URL.


Lemma truthy_default (o : option jsstring) :
  truthy o = true -> Some (default [] o) = o.
Proof. destruct o as [[|c v]|]; simpl; intros H; congruence. Qed.

Lemma passedHeaders_exact response field :
  field = "Content-Range"%string \/ field = "Accept-Ranges"%string
  \/ field = "Content-Length"%string ->
  passedHeaders response !! field
  = if truthy (headers_get response field) then headers_get response field
    else None.
Proof.
  intros Hfield. unfold passedHeaders, passHeader.
  destruct Hfield as [-> | [-> | ->]];
    destruct (truthy (headers_get response "Content-Range")) eqn:H1;
    destruct (truthy (headers_get response "Accept-Ranges")) eqn:H2;
    destruct (truthy (headers_get response "Content-Length")) eqn:H3;
    simplify_map_eq; auto using truthy_default.
Qed.


(** X2. After a 2xx upstream response each of [Content-Range] and
    [Accept-Ranges] is on the response of the proxy exactly when the
    upstream response carries it with a value that is not empty, and then
    with that value; a later exception does not take it off. (The handler
    copies [Content-Length] in the same way, but [res.send] writes the
    length of the body it sends over it.) *)
Theorem headers_passed_exactly (req : Request) (url : jsstring)
    (response : Response) (field : string) :
  query_url req = Some url -> url <> [] ->
  fetch url (fetchHeaders req) = Ok response -> ok response = true ->
  field = "Content-Range"%string \/ field = "Accept-Ranges"%string ->
  headers (res (handle fetch newURL req)) !! field
  = if truthy (headers_get response field) then headers_get response field
    else None.
Proof.
  intros Hq Hne Hf Hok Hfield.
  assert (Hp : passedHeaders response !! field
               = if truthy (headers_get response field)
                 then headers_get response field else None)
    by (apply passedHeaders_exact; tauto).
  rewrite (handle_outcome _ _ _ _ Hq Hne). unfold tryOutcome.
  rewrite Hf, Hok. cbn [negb andb].
  inner_cases; cbn [state res headers]; unfold manifestHeaders, binaryHeaders;
    destruct Hfield as [-> | ->];
    repeat (rewrite lookup_insert_ne by discriminate); exact Hp.
Qed.


(** X4. The responses that report a failure before any body is read carry
    no header of the handler's, so none that opens them to other origins:
    the 400 for a missing [url], the forwarded upstream status, and the 500
    after [fetch] itself has thrown. *)
Theorem failure_responses_bare (req : Request) :
  (query_url req = None \/ query_url req = Some [] ->
   headers (res (handle fetch newURL req)) = ∅)
  /\ (forall url,
        query_url req = Some url -> url <> [] ->
        (forall response,
           fetch url (fetchHeaders req) = Ok response ->
           ok response = false -> status response <> 206 ->
           headers (res (handle fetch newURL req)) = ∅)
        /\ (forall e,
              fetch url (fetchHeaders req) = Throw e ->
              statusCode (res (handle fetch newURL req)) = 500
              /\ headers (res (handle fetch newURL req)) = ∅)).
Proof.
  split.
  - intros [H | H]; unfold handle, proxyManifest; rewrite H; reflexivity.
  - intros url Hq Hne. rewrite (handle_outcome _ _ _ _ Hq Hne). unfold tryOutcome.
    split.
    + intros response Hf Hok Hs. apply N.eqb_neq in Hs.
      rewrite Hf, Hok, Hs. reflexivity.
    + intros e Hf. rewrite Hf. split; reflexivity.
Qed.

Lemma fetchHeaders_lookup (req : Request) :
  fetchHeaders req !! "User-Agent"%string = Some userAgent
  /\ fetchHeaders req !! "Accept"%string = Some (js "*/*")
  /\ fetchHeaders req !! "Accept-Language"%string = Some (js "en-US,en;q=0.9")
  /\ fetchHeaders req !! "Range"%string
     = (if truthy (headers_range req) then headers_range req else None)
  /\ (forall field,
        field <> "User-Agent"%string -> field <> "Accept"%string ->
        field <> "Accept-Language"%string -> field <> "Range"%string ->
        fetchHeaders req !! field = None).
Proof.
  unfold fetchHeaders.
  destruct (truthy (headers_range req)) eqn:Hr;
    repeat split; intros; simplify_map_eq; auto using truthy_default.
Qed.

(** X5. The handler calls [fetch] once for a request with a [url], on that
    URL, and the headers it passes are the three fixed ones of lines 47-51
    and, exactly when the caller sent a [Range] that is not empty, that
    [Range] as it is; nothing else of the caller's request goes upstream,
    whatever the request and whatever the upstream answers. *)
Theorem upstream_request_headers (req : Request) (url : jsstring) :
  query_url req = Some url -> url <> [] ->
  exists h rest,
    trace (handle fetch newURL req) = EvFetch url h :: rest
    /\ (forall ev, In ev rest -> forall url' h', ev <> EvFetch url' h')
    /\ h !! "User-Agent"%string = Some userAgent
    /\ h !! "Accept"%string = Some (js "*/*")
    /\ h !! "Accept-Language"%string = Some (js "en-US,en;q=0.9")
    /\ h !! "Range"%string
       = (if truthy (headers_range req) then headers_range req else None)
    /\ (forall field,
          field <> "User-Agent"%string -> field <> "Accept"%string ->
          field <> "Accept-Language"%string -> field <> "Range"%string ->
          h !! field = None).
Proof.
  intros Hq Hne. exists (fetchHeaders req).
  assert (Ht : exists rest,
             trace (handle fetch newURL req) = EvFetch url (fetchHeaders req) :: rest
             /\ forall ev, In ev rest -> forall url' h', ev <> EvFetch url' h').
  { rewrite (handle_outcome _ _ _ _ Hq Hne). unfold tryOutcome.
    inner_cases; cbn [state trace app]; eexists; (split; [reflexivity|]);
      intros ev Hin url' h'; simpl in Hin; intuition (subst; discriminate). }
  destruct Ht as [rest [Ht Hrest]]. exists rest.
  split; [exact Ht|]. split; [exact Hrest|]. apply fetchHeaders_lookup.
Qed.

(** X18. The proxy fetches what it rewrote a reference to: the [url]
    parameter of a rewritten media reference decodes to the resolved URL,
    which is not empty, and a request with that [url] starts by fetching
    it. *)
Theorem rewritten_reference_is_fetched (parsedUrl : URL) (line out : jsstring) :
  CodeUnits (origin parsedUrl) -> CodeUnits (pathname parsedUrl) ->
  CodeUnits line -> MediaReference line ->
  rewriteLine parsedUrl (baseUrl parsedUrl) line = Ok out ->
  exists e target,
    out = js "/api/proxy-manifest?url=" ++ e
    /\ URI.decodeURIComponent e = Ok target
    /\ target = resolve (origin parsedUrl) (baseUrl parsedUrl) (trim line)
    /\ forall range,
         exists rest,
           trace (handle fetch newURL (request target range))
           = EvFetch target (fetchHeaders (request target range)) :: rest.
Proof.
  intros Ho Hp Hl Hm Hr. rewrite (rewriteLine_media _ _ _ Hm) in Hr.
  destruct (proxied_decodes _ _ _ Ho Hp (CodeUnits_trim _ Hl) Hr) as [e [-> [_ Hd]]].
  exists e, (resolve (origin parsedUrl) (baseUrl parsedUrl) (trim line)).
  split; [reflexivity|]. split; [exact Hd|]. split; [reflexivity|].
  intros range. apply fetch_comes_first; [reflexivity|].
  destruct Hm as [Hb _]. unfold Blank in Hb. unfold resolve.
  destruct (trim line) as [|c t] eqn:Ht; [congruence|].
  destruct (startsWith (js "http") (c :: t)); [discriminate|].
  destruct (startsWith (js "/") (c :: t)); intros H;
    apply app_eq_nil in H; destruct H; discriminate.
Qed.

End ProxyTraffic.

(** ** The rewriter: lines in, lines out *)

Section ManifestLines.
Import JSString Spec Proxy.

Lemma split_lf_cons c s :
  (c =? 10) = false ->
  split_lf (c :: s) = (c :: hd [] (split_lf s)) :: tl (split_lf s).
Proof.
  intros Hc. simpl. rewrite Hc. pose proof (split_lf_nonempty s).
  destruct (split_lf s); [congruence | reflexivity].
Qed.

(** No line of a split text holds a line feed. *)
Lemma split_lf_no_LF s : Forall (fun l => ~ In 10 l) (split_lf s).
Proof.
  induction s as [|c s IH]; [repeat constructor; auto|].
  destruct (c =? 10) eqn:Hc.
  - simpl. rewrite Hc. constructor; [auto | exact IH].
  - rewrite (split_lf_cons c s Hc). pose proof (split_lf_nonempty s).
    destruct (split_lf s) as [|l ls]; [congruence|]. inversion IH; subst.
    constructor; [|assumption]. simpl. apply N.eqb_neq in Hc.
    intros [H' | H']; [congruence | auto].
Qed.

Lemma split_lf_single l : ~ In 10 l -> split_lf l = [l].
Proof.
  induction l as [|c l IH]; intros Hn; [reflexivity|].
  assert (Hc : (c =? 10) = false)
    by (apply N.eqb_neq; intros ->; apply Hn; left; reflexivity).
  rewrite (split_lf_cons c l Hc), IH; [reflexivity|].
  intros H'. apply Hn. right. exact H'.
Qed.

(** Splitting distributes over a line feed. *)
Lemma split_lf_app a b : split_lf (a ++ 10 :: b) = split_lf a ++ split_lf b.
Proof.
  induction a as [|c a IH]; [reflexivity|].
  destruct (c =? 10) eqn:Hc.
  - simpl. rewrite Hc. rewrite IH. reflexivity.
  - rewrite <- app_comm_cons, !(split_lf_cons c _ Hc), IH.
    pose proof (split_lf_nonempty a).
    destruct (split_lf a) as [|l ls]; [congruence | reflexivity].
Qed.

(** Joining lines that hold no line feed and splitting again gives the
    lines back. *)
Lemma split_join_lf ls :
  ls <> [] -> Forall (fun l => ~ In 10 l) ls -> split_lf (join_lf ls) = ls.
Proof.
  intros Hne H. induction H as [|l ls Hl Hls IH]; [congruence|].
  destruct ls as [|l' ls'].
  - simpl. apply split_lf_single. exact Hl.
  - change (join_lf (l :: l' :: ls')) with (l ++ 10 :: join_lf (l' :: ls')).
    rewrite split_lf_app, (split_lf_single l Hl), IH by discriminate.
    reflexivity.
Qed.

Lemma join_lf_app l1 l2 :
  l1 <> [] -> l2 <> [] -> join_lf (l1 ++ l2) = join_lf l1 ++ 10 :: join_lf l2.
Proof.
  intros H1 H2. induction l1 as [|a l1 IH]; [congruence|].
  destruct l1 as [|b l1].
  - destruct l2; [congruence | reflexivity].
  - change (join_lf ((a :: b :: l1) ++ l2))
      with (a ++ 10 :: join_lf ((b :: l1) ++ l2)).
    rewrite IH by discriminate.
    change (join_lf (a :: b :: l1)) with (a ++ 10 :: join_lf (b :: l1)).
    rewrite <- app_assoc. reflexivity.
Qed.

Lemma mapR_app {A B} (f : A -> result B) l1 l2 :
  mapR f (l1 ++ l2)
  = rbind (mapR f l1) (fun a => rbind (mapR f l2) (fun b => Ok (a ++ b))).
Proof.
  induction l1 as [|x l1 IH]; simpl.
  - destruct (mapR f l2); reflexivity.
  - destruct (f x); [|reflexivity]. simpl. rewrite IH.
    destruct (mapR f l1); [|reflexivity]. simpl.
    destruct (mapR f l2); reflexivity.
Qed.

Lemma mapR_length {A B} (f : A -> result B) l : forall ys,
  mapR f l = Ok ys -> length ys = length l.
Proof.
  induction l as [|x l IH]; intros ys H; simpl in H.
  - inversion H. reflexivity.
  - destruct (f x); [|discriminate]. simpl in H.
    destruct (mapR f l) as [zs|]; [|discriminate]. simpl in H.
    inversion H. simpl. rewrite (IH zs eq_refl). reflexivity.
Qed.

Lemma mapR_In {A B} (f : A -> result B) l : forall ys y,
  mapR f l = Ok ys -> In y ys -> exists x, In x l /\ f x = Ok y.
Proof.
  induction l as [|x l IH]; intros ys y H Hy; simpl in H.
  - inversion H; subst. destruct Hy.
  - destruct (f x) as [z|] eqn:Hz; [|discriminate]. simpl in H.
    destruct (mapR f l) as [zs|]; [|discriminate]. simpl in H.
    inversion H; subst. destruct Hy as [-> | Hy].
    + exists x. split; [left; reflexivity | exact Hz].
    + destruct (IH zs y eq_refl Hy) as [x' [Hx' Hf]].
      exists x'. split; [right; exact Hx' | exact Hf].
Qed.

Lemma mapR_Forall {A B} (P : A -> Prop) (Q : B -> Prop) (f : A -> result B) l :
  (forall x y, P x -> f x = Ok y -> Q y) ->
  Forall P l -> forall ys, mapR f l = Ok ys -> Forall Q ys.
Proof.
  intros Hf HP ys H. apply List.Forall_forall. intros y Hy.
  destruct (mapR_In f l ys y H Hy) as [x [Hx Hfx]].
  rewrite List.Forall_forall in HP. eauto.
Qed.

Lemma CodeUnits_lines s : CodeUnits s -> Forall CodeUnits (split_lf s).
Proof.
  induction 1 as [|c s Hc Hs IH]; [repeat constructor|].
  destruct (c =? 10) eqn:H10.
  - simpl. rewrite H10. constructor; [constructor | exact IH].
  - rewrite (split_lf_cons c s H10). pose proof (split_lf_nonempty s).
    destruct (split_lf s) as [|l ls]; [congruence|]. inversion IH; subst.
    constructor; [constructor; assumption | assumption].
Qed.

(** X6. The rewritten manifest has the lines of the original, one for one:
    split on line feeds it gives as many lines as the input, the line at
    each index being the rewriting of the input line at that index. *)
Theorem rewritten_manifest_lines (parsedUrl : URL) (text out : jsstring) :
  CodeUnits (origin parsedUrl) -> CodeUnits (pathname parsedUrl) ->
  CodeUnits text ->
  rewriteManifest parsedUrl text = Ok out ->
  length (split_lf out) = length (split_lf text)
  /\ rewrittenLines parsedUrl text = Ok (split_lf out)
  /\ (forall i line,
        nth_error (split_lf text) i = Some line ->
        exists line',
          rewriteLine parsedUrl (baseUrl parsedUrl) line = Ok line'
          /\ nth_error (split_lf out) i = Some line').
Proof.
  intros Ho Hp Ht Hr. unfold rewriteManifest in Hr.
  destruct (rewrittenLines parsedUrl text) as [ls|] eqn:Hls; [|discriminate].
  simpl in Hr. inversion Hr; subst out. unfold rewrittenLines in Hls.
  pose proof (mapR_length _ _ _ Hls) as Hlen.
  assert (Hne : ls <> []).
  { intros ->. pose proof (split_lf_nonempty text).
    destruct (split_lf text); [congruence | discriminate]. }
  assert (Hno : Forall (fun l => ~ In 10 l) ls).
  { pose proof (split_lf_no_LF text) as Hn. pose proof (CodeUnits_lines text Ht) as Hc.
    apply List.Forall_forall. intros l Hl.
    destruct (mapR_In _ _ _ _ Hls Hl) as [line [Hin Hf]].
    rewrite List.Forall_forall in Hn, Hc.
    exact (rewriteLine_single_line parsedUrl line l Ho Hp (Hc _ Hin) (Hn _ Hin) Hf). }
  rewrite (split_join_lf ls Hne Hno). split; [exact Hlen|]. split; [reflexivity|].
  intros i line Hi. exact (mapR_nth _ _ _ _ _ Hls Hi).
Qed.

Lemma trimStart_whitespace ws s :
  Forall (fun c => isWhiteSpace c = true) ws -> trimStart (ws ++ s) = trimStart s.
Proof.
  induction 1 as [|c ws Hc _ IH]; [reflexivity|]. simpl. rewrite Hc. exact IH.
Qed.

Lemma trimEnd_whitespace s ws :
  Forall (fun c => isWhiteSpace c = true) ws -> trimEnd (s ++ ws) = trimEnd s.
Proof.
  intros H. unfold trimEnd. rewrite rev_app_distr.
  rewrite trimStart_whitespace; [reflexivity | apply Forall_rev; exact H].
Qed.

Lemma trimStart_snoc x c :
  isWhiteSpace c = false -> exists t, trimStart (x ++ [c]) = t ++ [c].
Proof.
  intros Hc. induction x as [|d x [t IH]]; simpl.
  - rewrite Hc. exists []. reflexivity.
  - destruct (isWhiteSpace d); [exists t; exact IH|].
    exists (d :: x). reflexivity.
Qed.

(** Trimming keeps a first character that is no whitespace. *)
Lemma trim_head c r :
  isWhiteSpace c = false -> exists t, trim (c :: r) = c :: t.
Proof.
  intros Hc. unfold trim. simpl trimStart. rewrite Hc. unfold trimEnd.
  simpl rev. destruct (trimStart_snoc (rev r) c Hc) as [t Ht].
  rewrite Ht, rev_app_distr. exists (rev t). reflexivity.
Qed.

(** Whitespace around a string does not change what it is trimmed to. *)
Lemma trim_padded ws1 s ws2 :
  Forall (fun c => isWhiteSpace c = true) ws1 ->
  Forall (fun c => isWhiteSpace c = true) ws2 ->
  trim (ws1 ++ s ++ ws2) = trim s.
Proof.
  intros H1 H2. unfold trim. rewrite (trimStart_whitespace ws1 _ H1).
  induction s as [|c s IH].
  - simpl app. replace (trimStart ws2) with (@nil N); [reflexivity|].
    rewrite <- (app_nil_r ws2), (trimStart_whitespace ws2 [] H2). reflexivity.
  - simpl. destruct (isWhiteSpace c); [exact IH|].
    exact (trimEnd_whitespace (c :: s) ws2 H2).
Qed.

Lemma matchURI_hash r : matchURI (35 :: r) = None.
Proof.
  destruct (matchURI (35 :: r)) as [[v rest]|] eqn:Hm; [|reflexivity].
  apply matchURI_Occurs in Hm. destruct Hm as [Heq _].
  apply (f_equal (hd 0)) in Heq. vm_compute in Heq. discriminate.
Qed.

Lemma line_kind line : Blank line \/ Tag line \/ MediaReference line.
Proof.
  destruct (isEmpty (trim line)) eqn:He.
  - left. apply isEmpty_true. exact He.
  - destruct (startsWith (js "#") (trim line)) eqn:Hs.
    + right. left. apply startsWith_HasPrefix. exact Hs.
    + right. right. apply MediaReference_test. rewrite He, Hs. reflexivity.
Qed.

(** X7. Rewriting keeps the kind of a line: a blank line is returned as it
    is, a tag line gives a tag line, and a media reference gives a media
    reference that starts with the path of the proxy. *)
Theorem line_kind_kept (parsedUrl : URL) (baseUrl line out : jsstring) :
  rewriteLine parsedUrl baseUrl line = Ok out ->
  (Blank line -> out = line)
  /\ (Tag line -> Tag out)
  /\ (MediaReference line ->
      MediaReference out /\ HasPrefix (js "/api/proxy-manifest?url=") out).
Proof.
  intros Hr. split; [|split].
  - intros Hb. rewrite (rewriteLine_tag _ _ _ (or_introl Hb)) in Hr.
    unfold Blank in Hb. rewrite Hb in Hr. simpl in Hr. congruence.
  - intros Ht. rewrite (rewriteLine_tag _ _ _ (or_intror Ht)) in Hr.
    destruct (includes uriAttr (trim line)); [|congruence].
    destruct Ht as [r Ht]. rewrite Ht in Hr. change (js "#" ++ r) with (35 :: r) in Hr.
    rewrite (replaceURI_None _ _ _ (matchURI_hash r)) in Hr.
    destruct (replaceURI (replacer parsedUrl baseUrl) r) as [o|]; [|discriminate].
    simpl in Hr. inversion Hr; subst out.
    destruct (trim_head 35 o eq_refl) as [t Htrim].
    exists t. exact Htrim.
  - intros Hm. rewrite (rewriteLine_media _ _ _ Hm) in Hr. unfold proxied in Hr.
    destruct (URI.encodeURIComponent _) as [e|]; [|discriminate].
    unfold rmap, rbind in Hr.
    assert (Hout : out = js "/api/proxy-manifest?url=" ++ e) by congruence.
    subst out. split; [|exists e; reflexivity].
    assert (Htrim : exists t, trim (js "/api/proxy-manifest?url=" ++ e) = 47 :: t)
      by exact (trim_head 47 (tl (js "/api/proxy-manifest?url=") ++ e) eq_refl).
    destruct Htrim as [t Htrim]. unfold MediaReference, Blank, Tag.
    rewrite Htrim. split; [discriminate|].
    intros [x Hx]. vm_compute in Hx. discriminate.
Qed.

(** X8. In a rewritten manifest every line that is a media reference starts
    with the path of the proxy, and it comes from a media reference of the
    input: no reference is left for the player to fetch directly. *)
Theorem every_reference_proxied (parsedUrl : URL) (text : jsstring)
    (ls : list jsstring) (l : jsstring) :
  rewrittenLines parsedUrl text = Ok ls ->
  In l ls -> MediaReference l ->
  HasPrefix (js "/api/proxy-manifest?url=") l
  /\ exists line,
       In line (split_lf text) /\ MediaReference line
       /\ rewriteLine parsedUrl (baseUrl parsedUrl) line = Ok l.
Proof.
  intros Hls Hl Hm. unfold rewrittenLines in Hls.
  destruct (mapR_In _ _ _ _ Hls Hl) as [line [Hin Hf]].
  destruct (line_kind_kept _ _ _ _ Hf) as [Hb [Ht Hmedia]].
  destruct (line_kind line) as [Hk | [Hk | Hk]].
  - exfalso. rewrite (Hb Hk) in Hm. exact (proj1 Hm Hk).
  - exfalso. exact (proj2 Hm (Ht Hk)).
  - split; [exact (proj2 (Hmedia Hk))|]. exists line. auto.
Qed.

(** X9. Whitespace around a line, the indentation or the carriage return of
    a CR LF manifest, does not change what a media reference or a tag with
    the attribute text is rewritten to. *)
Theorem surrounding_whitespace_ignored (parsedUrl : URL)
    (baseUrl ws1 line ws2 : jsstring) :
  Forall (fun c => isWhiteSpace c = true) ws1 ->
  Forall (fun c => isWhiteSpace c = true) ws2 ->
  MediaReference line \/ Contains uriAttr (trim line) ->
  rewriteLine parsedUrl baseUrl (ws1 ++ line ++ ws2)
  = rewriteLine parsedUrl baseUrl line.
Proof.
  intros H1 H2 Hk. unfold rewriteLine. rewrite (trim_padded ws1 line ws2 H1 H2).
  destruct Hk as [Hm | Hc].
  - rewrite (not_media_reference _ Hm). reflexivity.
  - apply includes_Contains in Hc. rewrite Hc.
    destruct (isEmpty (trim line) || startsWith (js "#") (trim line)); reflexivity.
Qed.

(** X10. Lines are rewritten one by one: the rewriting of two texts joined
    by a line feed is the two rewritings joined by a line feed (and throws
    when either does). *)
Theorem rewriting_is_line_local (parsedUrl : URL) (a b : jsstring) :
  rewriteManifest parsedUrl (a ++ 10 :: b)
  = rbind (rewriteManifest parsedUrl a) (fun a' =>
    rbind (rewriteManifest parsedUrl b) (fun b' => Ok (a' ++ 10 :: b'))).
Proof.
  unfold rewriteManifest, rewrittenLines. rewrite split_lf_app, mapR_app.
  destruct (mapR _ (split_lf a)) as [la|] eqn:Ha; [|reflexivity]. simpl.
  destruct (mapR _ (split_lf b)) as [lb|] eqn:Hb; [|reflexivity]. simpl.
  rewrite join_lf_app; [reflexivity | |].
  - intros ->. apply mapR_length in Ha. pose proof (split_lf_nonempty a).
    destruct (split_lf a); [congruence | discriminate].
  - intros ->. apply mapR_length in Hb. pose proof (split_lf_nonempty b).
    destruct (split_lf b); [congruence | discriminate].
Qed.

End ManifestLines.

(** ** The player: proxied URLs and quality levels *)

Section PlayerFacts.
Import Spec Player.

Lemma encoded_url_decodes (prefix url s : jsstring) :
  CodeUnits url ->
  rbind (URI.encodeURIComponent url) (fun e => Ok (prefix ++ e)) = Ok s ->
  exists e,
    s = prefix ++ e /\ Forall QueryChar e /\ URI.decodeURIComponent e = Ok url.
Proof.
  intros Hcu Hs. destruct (URI.encodeURIComponent url) as [e|] eqn:He; [|discriminate].
  unfold rbind in Hs. exists e. split; [congruence|]. split.
  - exact (Encode_chars _ _ _ (Nat.le_refl _) Hcu He).
  - exact (decodeURIComponent_encodeURIComponent _ _ Hcu He).
Qed.

(** X11. The URLs the client builds for the two proxies carry the target in
    their [url] parameter so that URL-decoding gives it back: the stream URL
    of the player when the proxy is used (without the proxy it is the URL of
    the entry itself), and the URL the import dialog fetches; both are there
    for every well-formed target. *)
Theorem client_urls_decode (url : jsstring) :
  CodeUnits url ->
  streamUrl false url = Ok url
  /\ (forall s,
        streamUrl true url = Ok s ->
        exists e,
          s = js "/api/proxy-manifest?url=" ++ e
          /\ Forall QueryChar e /\ URI.decodeURIComponent e = Ok url)
  /\ (forall s,
        importUrl url = Ok s ->
        exists e,
          s = js "/api/proxy-m3u?url=" ++ e
          /\ Forall QueryChar e /\ URI.decodeURIComponent e = Ok url)
  /\ (isWellFormed url = true ->
      exists s s', streamUrl true url = Ok s /\ importUrl url = Ok s').
Proof.
  intros Hcu. split; [reflexivity|].
  split; [intros s; apply encoded_url_decodes; exact Hcu|].
  split; [intros s; apply encoded_url_decodes; exact Hcu|].
  intros Hw. destruct (encodeURIComponent_total url Hw) as [e He].
  unfold streamUrl, importUrl. rewrite He. eexists; eexists; split; reflexivity.
Qed.

Lemma insertSorted_Permutation {A} (comparefn : A -> A -> Z) x l :
  Permutation (insertSorted comparefn x l) (x :: l).
Proof.
  induction l as [|y l IH]; simpl; [reflexivity|].
  destruct (comparefn x y <=? 0)%Z; [reflexivity|].
  rewrite IH. apply perm_swap.
Qed.

Lemma sort_Permutation {A} (comparefn : A -> A -> Z) l :
  Permutation (sort comparefn l) l.
Proof.
  induction l as [|x l IH]; simpl; [reflexivity|].
  rewrite insertSorted_Permutation, IH. reflexivity.
Qed.

Lemma insertSorted_before x l :
  StronglySorted before l -> Forall (fun y => id x < id y) l ->
  StronglySorted before (insertSorted byHeightDescending x l).
Proof.
  induction 1 as [|y l Hs IH Hy]; intros Hid; simpl.
  - repeat constructor.
  - inversion Hid as [|? ? Hxy Hrest]; subst.
    unfold byHeightDescending at 1.
    destruct (Z.of_N (q_height y) - Z.of_N (q_height x) <=? 0)%Z eqn:Hc.
    + apply Z.leb_le in Hc. constructor; [constructor; assumption|].
      constructor.
      * unfold before. lia.
      * rewrite List.Forall_forall in Hy, Hrest |- *. intros z Hz.
        specialize (Hy z Hz). specialize (Hrest z Hz). unfold before in *. lia.
    + apply Z.leb_gt in Hc. constructor; [apply IH; assumption|].
      rewrite List.Forall_forall. intros z Hz.
      apply (Permutation_in _ (insertSorted_Permutation _ x l)) in Hz.
      destruct Hz as [<- | Hz].
      * unfold before. lia.
      * rewrite List.Forall_forall in Hy. exact (Hy z Hz).
Qed.

Lemma mapIndexed_ids index levels :
  Forall (fun q => index <= id q) (mapIndexed index levels).
Proof.
  revert index. induction levels as [|lv levels IH]; intros index; simpl.
  - constructor.
  - constructor; [simpl; lia|].
    eapply List.Forall_impl; [|apply (IH (index + 1))]. simpl. intros q Hq. lia.
Qed.

Lemma sort_mapIndexed_before index levels :
  StronglySorted before (sort byHeightDescending (mapIndexed index levels)).
Proof.
  revert index. induction levels as [|lv levels IH]; intros index; simpl.
  - constructor.
  - apply insertSorted_before; [apply IH|].
    rewrite List.Forall_forall. intros y Hy.
    apply (Permutation_in _ (sort_Permutation _ _)) in Hy.
    pose proof (mapIndexed_ids (index + 1) levels) as Hids.
    rewrite List.Forall_forall in Hids. specialize (Hids y Hy). simpl. lia.
Qed.

Lemma mapIndexed_index index levels q :
  In q (mapIndexed index levels) ->
  index <= id q
  /\ nth_error levels (N.to_nat (id q - index))
     = Some {| height := q_height q; bitrate := q_bitrate q |}.
Proof.
  revert index. induction levels as [|lv levels IH]; intros index; simpl; [intros []|].
  intros [<- | Hq].
  - simpl. rewrite N.sub_diag. split; [lia|]. destruct lv; reflexivity.
  - destruct (IH (index + 1) Hq) as [Hle Hn]. split; [lia|].
    replace (N.to_nat (id q - index)) with (S (N.to_nat (id q - (index + 1)))) by lia.
    exact Hn.
Qed.

Lemma mapIndexed_length index levels :
  length (mapIndexed index levels) = length levels.
Proof.
  revert index. induction levels as [|lv levels IH]; intros index; simpl;
    [reflexivity | rewrite IH; reflexivity].
Qed.

(** X12. The quality menu lists every level of the stream once, higher
    resolutions first and levels of one height in the order of the stream;
    the [id] of an entry is the index in [hls.levels] of the level whose
    height and bitrate the entry shows, the index [handleLevelChange] hands
    to hls.js. *)
Theorem quality_levels_ordered (levels : list Level) :
  let menu := availableLevels levels in
  Permutation menu (mapIndexed 0 levels)
  /\ length menu = length levels
  /\ StronglySorted before menu
  /\ (forall q,
        In q menu ->
        nth_error levels (N.to_nat (id q))
        = Some {| height := q_height q; bitrate := q_bitrate q |}).
Proof.
  cbv zeta. unfold availableLevels.
  pose proof (sort_Permutation byHeightDescending (mapIndexed 0 levels)) as Hp.
  split; [exact Hp|]. split.
  - rewrite (Permutation_length Hp). apply mapIndexed_length.
  - split; [apply sort_mapIndexed_before|].
    intros q Hq. apply (Permutation_in _ Hp) in Hq.
    destruct (mapIndexed_index 0 levels q Hq) as [_ Hn].
    rewrite N.sub_0_r in Hn. exact Hn.
Qed.

Lemma mapIndexed_NoDup index levels :
  List.NoDup (List.map id (mapIndexed index levels)).
Proof.
  revert index. induction levels as [|lv levels IH]; intros index; simpl.
  - constructor.
  - apply List.NoDup_cons; [|apply IH].
    intros Hin. apply List.in_map_iff in Hin. destruct Hin as [q [Hq Hin]].
    pose proof (mapIndexed_ids (index + 1) levels) as Hids.
    rewrite List.Forall_forall in Hids. specialize (Hids q Hin). lia.
Qed.

Lemma find_by_id l q :
  List.NoDup (List.map id l) -> In q l ->
  List.find (fun x => (Z.of_N (id x) =? Z.of_N (id q))%Z) l = Some q.
Proof.
  induction l as [|x l IH]; intros Hnd Hin; [destruct Hin|].
  simpl in Hnd. apply List.NoDup_cons_iff in Hnd. destruct Hnd as [Hx Hnd].
  simpl. destruct Hin as [-> | Hin].
  - rewrite Z.eqb_refl. reflexivity.
  - destruct (Z.of_N (id x) =? Z.of_N (id q))%Z eqn:He; [|apply IH; assumption].
    apply Z.eqb_eq in He. exfalso. apply Hx.
    apply List.in_map_iff. exists q. split; [lia | exact Hin].
Qed.

Lemma find_no_id l c :
  (forall q, In q l -> Z.of_N (id q) <> c) ->
  List.find (fun x => (Z.of_N (id x) =? c)%Z) l = None.
Proof.
  induction l as [|x l IH]; intros H; [reflexivity|]. simpl.
  destruct (Z.of_N (id x) =? c)%Z eqn:He.
  - apply Z.eqb_eq in He. exfalso. exact (H x (or_introl eq_refl) He).
  - apply IH. intros q Hq. apply H. right. exact Hq.
Qed.

(** X13. The quality button shows [Auto] for the level -1, the height of the
    chosen level in decimal digits followed by [p] for the [id] of any entry
    of the menu whose height is a safe integer, and [undefinedp] for an
    index the stream has no level for. *)
Theorem quality_label_of_choice (levels : list Level) :
  let menu := availableLevels levels in
  qualityLabel menu (-1) = js "Auto"
  /\ (forall q,
        In q menu -> q_height q <= JSString.MAX_SAFE_INTEGER ->
        qualityLabel menu (Z.of_N (id q)) = JSString.ofNumber (q_height q) ++ js "p")
  /\ (forall c,
        (Z.of_nat (length levels) <= c)%Z ->
        qualityLabel menu c = js "undefined" ++ js "p").
Proof.
  cbv zeta. unfold availableLevels.
  pose proof (sort_Permutation byHeightDescending (mapIndexed 0 levels)) as Hp.
  split; [reflexivity|]. split.
  - intros q Hq _. unfold qualityLabel.
    replace (Z.of_N (id q) =? -1)%Z with false by (symmetry; apply Z.eqb_neq; lia).
    rewrite find_by_id; [reflexivity | | exact Hq].
    apply (Permutation_NoDup (Permutation_map id (Permutation_sym Hp))).
    apply mapIndexed_NoDup.
  - intros c Hc. unfold qualityLabel.
    replace (c =? -1)%Z with false by (symmetry; apply Z.eqb_neq; lia).
    rewrite find_no_id; [reflexivity|].
    intros q Hq Heq. apply (Permutation_in _ Hp) in Hq.
    destruct (mapIndexed_index 0 levels q Hq) as [_ Hn].
    assert (Hlt : (N.to_nat (id q - 0) < length levels)%nat)
      by (apply nth_error_Some; rewrite Hn; discriminate).
    lia.
Qed.

End PlayerFacts.

(** ** The playlist proxy *)

Section PlaylistProxy.
Import M3UProxy.

Variable fetch : jsstring -> gmap string jsstring -> result Upstream.

Lemma m3u_handle_url req url :
  query_url req = Some url -> url <> [] ->
  handle fetch req = snd (tryCatch (tryBlock fetch url) catchBlock initial).
Proof.
  intros Hq Hne. unfold handle, proxyM3U.
  rewrite Hq, (truthy_Some _ Hne). reflexivity.
Qed.

(** X14. The playlist proxy answers a request whose [url] parameter is
    missing or empty with status 400 and the JSON error [URL is required],
    and fetches nothing. *)
Theorem m3u_missing_url (req : Request) :
  query_url req = None \/ query_url req = Some [] ->
  let st := handle fetch req in
  statusCode (res st) = 400
  /\ replies (res st) = [JsonError (js "URL is required")]
  /\ trace st = [].
Proof.
  intros [H | H]; unfold handle, proxyM3U; rewrite H; repeat split; reflexivity.
Qed.

(** X15. The playlist proxy turns every failure into a 500 with a JSON
    error: an upstream status outside of 200-299 is not forwarded but
    reported as [Failed to fetch: <statusText>] without the body being read,
    and an exception of [fetch] or of the body reader is reported by its
    message. *)
Theorem m3u_failures (req : Request) (url : jsstring) :
  query_url req = Some url -> url <> [] ->
  let st := handle fetch req in
  (forall upstream,
     fetch url fetchHeaders = Ok upstream -> ok (response upstream) = false ->
     statusCode (res st) = 500
     /\ replies (res st)
        = [JsonError (js "Failed to fetch: " ++ statusText upstream)]
     /\ trace st = [EvFetch url fetchHeaders])
  /\ (forall e,
        fetch url fetchHeaders = Throw e ->
        statusCode (res st) = 500
        /\ replies (res st) = [JsonError (message e)]
        /\ trace st = [EvFetch url fetchHeaders])
  /\ (forall upstream e,
        fetch url fetchHeaders = Ok upstream -> ok (response upstream) = true ->
        text (response upstream) = Throw e ->
        statusCode (res st) = 500
        /\ replies (res st) = [JsonError (message e)]
        /\ trace st = [EvFetch url fetchHeaders; EvText]).
Proof.
  intros Hq Hne st. unfold st. rewrite (m3u_handle_url _ _ Hq Hne).
  unfold tryCatch, tryBlock, catchBlock, throwError, res_json_error, res_send,
    reply, res_status, emit, lift, bind, initial.
  cbn [res trace statusCode replies app].
  split; [|split].
  - intros upstream Hf Hok. rewrite Hf, Hok. repeat split; reflexivity.
  - intros e Hf. rewrite Hf. repeat split; reflexivity.
  - intros upstream e Hf Hok Ht. rewrite Hf, Hok. cbn [negb].
    cbn [res trace statusCode replies app]. rewrite Ht. repeat split; reflexivity.
Qed.

(** X16. A playlist that the upstream serves with a 2xx status is sent as it
    is, whatever it holds, with status 200; the upstream request carries the
    User-Agent and nothing else, whatever the caller sent. *)
Theorem m3u_passes_playlist_through (req : Request) (url content : jsstring)
    (upstream : Upstream) :
  query_url req = Some url -> url <> [] ->
  fetch url fetchHeaders = Ok upstream -> ok (response upstream) = true ->
  text (response upstream) = Ok content ->
  let st := handle fetch req in
  statusCode (res st) = 200
  /\ replies (res st) = [Send content]
  /\ trace st = [EvFetch url fetchHeaders; EvText]
  /\ (forall field, field <> "User-Agent"%string -> fetchHeaders !! field = None).
Proof.
  intros Hq Hne Hf Hok Ht st. unfold st. rewrite (m3u_handle_url _ _ Hq Hne).
  unfold tryCatch, tryBlock, catchBlock, throwError, res_json_error, res_send,
    reply, res_status, emit, lift, bind, initial.
  cbn [res trace statusCode replies app]. rewrite Hf, Hok. cbn [negb].
  cbn [res trace statusCode replies app]. rewrite Ht.
  repeat split; try reflexivity.
  intros field Hfield. unfold fetchHeaders. simplify_map_eq. reflexivity.
Qed.

(** X17. Every request to the playlist proxy gets exactly one answer, with
    status 200, 400 or 500 and never the status of the upstream, after at
    most one upstream request and at most one read of its body: nothing
    happens without a [url], and with one the handler fetches it once, with
    the one header of lines 26-28, and then reads the body as text or does
    not. *)
Theorem m3u_one_answer (req : Request) :
  let st := handle fetch req in
  length (replies (res st)) = 1%nat
  /\ (statusCode (res st) = 200 \/ statusCode (res st) = 400
      \/ statusCode (res st) = 500)
  /\ match query_url req with
     | Some (c :: url) =>
         trace st = [EvFetch (c :: url) fetchHeaders]
         \/ trace st = [EvFetch (c :: url) fetchHeaders; EvText]
     | _ => trace st = []
     end.
Proof.
  cbv zeta. destruct (query_url req) as [[|c url]|] eqn:Hq.
  - unfold handle, proxyM3U. rewrite Hq. simpl. auto.
  - rewrite (m3u_handle_url req (c :: url) Hq ltac:(discriminate)).
    unfold tryCatch, tryBlock, catchBlock, throwError, res_json_error, res_send,
      reply, res_status, emit, lift, bind, initial.
    cbn [res trace statusCode replies app].
    destruct (fetch (c :: url) fetchHeaders) as [upstream|e]; [|simpl; auto].
    destruct (ok (response upstream)); cbn [negb]; [|simpl; auto].
    cbn [res trace statusCode replies app].
    destruct (text (response upstream)); simpl; auto.
  - unfold handle, proxyM3U. rewrite Hq. simpl. auto.
Qed.

End PlaylistProxy.

(** ** The added properties on the inputs of the examples *)


Lemma headers_passed_exactly_witness :
  ok partial_content = true
  /\ headers (res (handle (always partial_content) (parses live_m3u8)
                     (request (js "https://host/seg.ts") None)))
     !! "Content-Range"%string
     = Some (js "bytes 0-1023/4096")
  /\ headers (res (handle (always partial_content) (parses live_m3u8)
                     (request (js "https://host/seg.ts") None)))
     !! "Accept-Ranges"%string
     = None.
Proof.
  split; [reflexivity|]. split.
  - exact (headers_passed_exactly (always partial_content) (parses live_m3u8)
             (request (js "https://host/seg.ts") None) (js "https://host/seg.ts")
             partial_content "Content-Range" eq_refl ltac:(discriminate)
             eq_refl eq_refl (or_introl eq_refl)).
  - exact (headers_passed_exactly (always partial_content) (parses live_m3u8)
             (request (js "https://host/seg.ts") None) (js "https://host/seg.ts")
             partial_content "Accept-Ranges" eq_refl ltac:(discriminate)
             eq_refl eq_refl (or_intror eq_refl)).
Defined.


Lemma failure_responses_bare_witness :
  (query_url request_without_url = None \/ query_url request_without_url = Some [])
  /\ headers (res (handle (always forbidden) (parses live_m3u8) request_without_url))
     = ∅
  /\ ok forbidden = false
  /\ headers (res (handle (always forbidden) (parses live_m3u8)
                     (request (js "https://host/path/live.m3u8") None)))
     = ∅.
Proof.
  assert (H : query_url request_without_url = None
              \/ query_url request_without_url = Some []) by (left; reflexivity).
  split; [exact H|]. split.
  - exact (proj1 (failure_responses_bare (always forbidden) (parses live_m3u8)
                    request_without_url) H).
  - split; [reflexivity|].
    exact (proj1 (proj2 (failure_responses_bare (always forbidden) (parses live_m3u8)
                           (request (js "https://host/path/live.m3u8") None))
                    (js "https://host/path/live.m3u8") eq_refl ltac:(discriminate))
             forbidden eq_refl eq_refl ltac:(discriminate)).
Defined.

Lemma upstream_request_headers_witness :
  let url := js "https://host/seg.ts" in
  let req := request url (Some (js "bytes=0-1023")) in
  query_url req = Some url /\ url <> []
  /\ exists h rest,
       trace (handle (always segment_response) (parses segment_URL) req)
       = EvFetch url h :: rest
       /\ h !! "Range"%string = Some (js "bytes=0-1023")
       /\ h !! "Cookie"%string = None.
Proof.
  intros url req.
  assert (Hne : url <> []) by discriminate.
  split; [reflexivity|]. split; [exact Hne|].
  destruct (upstream_request_headers (always segment_response) (parses segment_URL)
              req url eq_refl Hne)
    as [h [rest [Ht [_ [_ [_ [_ [Hr Hother]]]]]]]].
  exists h, rest. split; [exact Ht|]. split; [exact Hr|].
  apply Hother; discriminate.
Defined.

Lemma rewritten_manifest_lines_witness :
  let text := js "#EXTM3U" ++ [10] ++ js "segment.ts" in
  let out := js "#EXTM3U" ++ [10]
             ++ js "/api/proxy-manifest?url=https%3A%2F%2Fhost%2Fpath%2Fsegment.ts" in
  Spec.CodeUnits (origin live_m3u8) /\ Spec.CodeUnits (pathname live_m3u8)
  /\ Spec.CodeUnits text
  /\ Proxy.rewriteManifest live_m3u8 text = Ok out
  /\ length (JSString.split_lf out) = length (JSString.split_lf text).
Proof.
  intros text out.
  assert (Ho : Spec.CodeUnits (origin live_m3u8)) by (repeat constructor).
  assert (Hp : Spec.CodeUnits (pathname live_m3u8)) by (repeat constructor).
  assert (Ht : Spec.CodeUnits text) by (repeat constructor).
  assert (Hr : Proxy.rewriteManifest live_m3u8 text = Ok out)
    by (vm_compute; reflexivity).
  repeat (split; [assumption|]).
  exact (proj1 (rewritten_manifest_lines live_m3u8 text out Ho Hp Ht Hr)).
Defined.

Lemma line_kind_kept_witness :
  let out := js "/api/proxy-manifest?url=https%3A%2F%2Fhost%2Fpath%2Fsegment.ts" in
  Proxy.rewriteLine live_m3u8 (Proxy.baseUrl live_m3u8) (js "segment.ts") = Ok out
  /\ Spec.MediaReference (js "segment.ts")
  /\ Spec.MediaReference out
  /\ Spec.HasPrefix (js "/api/proxy-manifest?url=") out.
Proof.
  intros out.
  assert (Hr : Proxy.rewriteLine live_m3u8 (Proxy.baseUrl live_m3u8) (js "segment.ts")
               = Ok out) by (vm_compute; reflexivity).
  assert (Hm : Spec.MediaReference (js "segment.ts"))
    by (apply MediaReference_test; vm_compute; reflexivity).
  split; [exact Hr|]. split; [exact Hm|].
  exact (proj2 (proj2 (line_kind_kept live_m3u8 _ _ _ Hr)) Hm).
Defined.

Lemma every_reference_proxied_witness :
  let text := js "#EXTM3U" ++ [10] ++ js "segment.ts" in
  let l := js "/api/proxy-manifest?url=https%3A%2F%2Fhost%2Fpath%2Fsegment.ts" in
  Proxy.rewrittenLines live_m3u8 text = Ok [js "#EXTM3U"; l]
  /\ In l [js "#EXTM3U"; l]
  /\ Spec.MediaReference l
  /\ Spec.HasPrefix (js "/api/proxy-manifest?url=") l.
Proof.
  intros text l.
  assert (Hls : Proxy.rewrittenLines live_m3u8 text = Ok [js "#EXTM3U"; l])
    by (vm_compute; reflexivity).
  assert (Hin : In l [js "#EXTM3U"; l]) by (right; left; reflexivity).
  assert (Hm : Spec.MediaReference l)
    by (apply MediaReference_test; vm_compute; reflexivity).
  repeat (split; [assumption|]).
  exact (proj1 (every_reference_proxied live_m3u8 text _ l Hls Hin Hm)).
Defined.

Lemma surrounding_whitespace_ignored_witness :
  Forall (fun c => JSString.isWhiteSpace c = true) [32; 32]
  /\ Forall (fun c => JSString.isWhiteSpace c = true) [13]
  /\ Spec.MediaReference (js "segment.ts")
  /\ Proxy.rewriteLine live_m3u8 (Proxy.baseUrl live_m3u8)
       ([32; 32] ++ js "segment.ts" ++ [13])
     = Proxy.rewriteLine live_m3u8 (Proxy.baseUrl live_m3u8) (js "segment.ts").
Proof.
  assert (H1 : Forall (fun c => JSString.isWhiteSpace c = true) [32; 32])
    by (repeat constructor).
  assert (H2 : Forall (fun c => JSString.isWhiteSpace c = true) [13])
    by (repeat constructor).
  assert (Hm : Spec.MediaReference (js "segment.ts"))
    by (apply MediaReference_test; vm_compute; reflexivity).
  repeat (split; [assumption|]).
  exact (surrounding_whitespace_ignored live_m3u8 (Proxy.baseUrl live_m3u8)
           [32; 32] (js "segment.ts") [13] H1 H2 (or_introl Hm)).
Defined.

Lemma client_urls_decode_witness :
  Spec.CodeUnits (js "http://other.host/x.ts")
  /\ Player.streamUrl true (js "http://other.host/x.ts")
     = Ok (js "/api/proxy-manifest?url=http%3A%2F%2Fother.host%2Fx.ts")
  /\ exists e,
       js "/api/proxy-manifest?url=http%3A%2F%2Fother.host%2Fx.ts"
       = js "/api/proxy-manifest?url=" ++ e
       /\ Forall Spec.QueryChar e
       /\ URI.decodeURIComponent e = Ok (js "http://other.host/x.ts").
Proof.
  assert (Hcu : Spec.CodeUnits (js "http://other.host/x.ts")) by (repeat constructor).
  assert (Hs : Player.streamUrl true (js "http://other.host/x.ts")
               = Ok (js "/api/proxy-manifest?url=http%3A%2F%2Fother.host%2Fx.ts"))
    by (vm_compute; reflexivity).
  split; [exact Hcu|]. split; [exact Hs|].
  exact (proj1 (proj2 (client_urls_decode _ Hcu)) _ Hs).
Defined.

Lemma quality_levels_ordered_witness :
  let q := {| Player.id := 1; Player.q_height := 1080; Player.q_bitrate := 5000000 |} in
  In q (Player.availableLevels stream_levels)
  /\ nth_error stream_levels (N.to_nat (Player.id q))
     = Some {| Player.height := 1080; Player.bitrate := 5000000 |}.
Proof.
  intros q.
  assert (Hq : In q (Player.availableLevels stream_levels)) by (left; reflexivity).
  split; [exact Hq|].
  exact (proj2 (proj2 (proj2 (quality_levels_ordered stream_levels))) q Hq).
Defined.

(** The menu of that stream: 1080p, the two 720p renditions in the order of
    the stream, 360p. *)
Example quality_menu_example :
  List.map Player.id (Player.availableLevels stream_levels) = [1; 2; 3; 0].
Proof. reflexivity. Qed.

Lemma quality_label_of_choice_witness :
  let q := {| Player.id := 1; Player.q_height := 1080; Player.q_bitrate := 5000000 |} in
  In q (Player.availableLevels stream_levels)
  /\ Player.q_height q <= JSString.MAX_SAFE_INTEGER
  /\ Player.qualityLabel (Player.availableLevels stream_levels) 1 = js "1080p"
  /\ (Z.of_nat (length stream_levels) <= 4)%Z
  /\ Player.qualityLabel (Player.availableLevels stream_levels) 4 = js "undefinedp".
Proof.
  intros q.
  assert (Hq : In q (Player.availableLevels stream_levels)) by (left; reflexivity).
  assert (Hs : Player.q_height q <= JSString.MAX_SAFE_INTEGER)
    by (vm_compute; discriminate).
  assert (H4 : (Z.of_nat (length stream_levels) <= 4)%Z) by (simpl; lia).
  destruct (quality_label_of_choice stream_levels) as [_ [Hl Hu]].
  split; [exact Hq|]. split; [exact Hs|]. split; [exact (Hl q Hq Hs)|].
  split; [exact H4|]. exact (Hu 4%Z H4).
Defined.

Lemma m3u_missing_url_witness :
  (query_url request_without_url = None \/ query_url request_without_url = Some [])
  /\ M3UProxy.statusCode
       (M3UProxy.res (M3UProxy.handle (always playlist_upstream) request_without_url))
     = 400
  /\ M3UProxy.replies
       (M3UProxy.res (M3UProxy.handle (always playlist_upstream) request_without_url))
     = [M3UProxy.JsonError (js "URL is required")].
Proof.
  assert (H : query_url request_without_url = None
              \/ query_url request_without_url = Some []) by (left; reflexivity).
  destruct (m3u_missing_url (always playlist_upstream) request_without_url H)
    as [H1 [H2 _]].
  split; [exact H|]. split; [exact H1 | exact H2].
Defined.

Lemma m3u_failures_witness :
  let req := request (js "https://host/list.m3u") None in
  ok (M3UProxy.response missing_upstream) = false
  /\ M3UProxy.statusCode (M3UProxy.res (M3UProxy.handle (always missing_upstream) req))
     = 500
  /\ M3UProxy.replies (M3UProxy.res (M3UProxy.handle (always missing_upstream) req))
     = [M3UProxy.JsonError (js "Failed to fetch: Not Found")].
Proof.
  intros req.
  destruct (proj1 (m3u_failures (always missing_upstream) req
                     (js "https://host/list.m3u") eq_refl ltac:(discriminate))
              missing_upstream eq_refl eq_refl) as [H1 [H2 _]].
  split; [reflexivity|]. split; [exact H1 | exact H2].
Defined.

Lemma m3u_passes_playlist_through_witness :
  let req := request (js "https://host/list.m3u") (Some (js "bytes=0-1023")) in
  ok (M3UProxy.response playlist_upstream) = true
  /\ M3UProxy.replies (M3UProxy.res (M3UProxy.handle (always playlist_upstream) req))
     = [M3UProxy.Send (js "#EXTM3U" ++ [10] ++ js "segment.ts")]
  /\ M3UProxy.trace (M3UProxy.handle (always playlist_upstream) req)
     = [EvFetch (js "https://host/list.m3u") M3UProxy.fetchHeaders; EvText].
Proof.
  intros req.
  destruct (m3u_passes_playlist_through (always playlist_upstream) req
              (js "https://host/list.m3u") (js "#EXTM3U" ++ [10] ++ js "segment.ts")
              playlist_upstream eq_refl ltac:(discriminate) eq_refl eq_refl eq_refl)
    as [_ [H2 [H3 _]]].
  split; [reflexivity|]. split; [exact H2 | exact H3].
Defined.

Lemma rewritten_reference_is_fetched_witness :
  Spec.CodeUnits (origin live_m3u8) /\ Spec.CodeUnits (pathname live_m3u8)
  /\ Spec.CodeUnits (js "segment.ts") /\ Spec.MediaReference (js "segment.ts")
  /\ exists e target,
       Proxy.rewriteLine live_m3u8 (Proxy.baseUrl live_m3u8) (js "segment.ts")
       = Ok (js "/api/proxy-manifest?url=" ++ e)
       /\ URI.decodeURIComponent e = Ok target
       /\ target = js "https://host/path/segment.ts"
       /\ exists rest,
            trace (handle (always forbidden) (parses live_m3u8) (request target None))
            = EvFetch target (fetchHeaders (request target None)) :: rest.
Proof.
  assert (Ho : Spec.CodeUnits (origin live_m3u8)) by (repeat constructor).
  assert (Hp : Spec.CodeUnits (pathname live_m3u8)) by (repeat constructor).
  assert (Hl : Spec.CodeUnits (js "segment.ts")) by (repeat constructor).
  assert (Hm : Spec.MediaReference (js "segment.ts"))
    by (apply MediaReference_test; vm_compute; reflexivity).
  repeat (split; [assumption|]).
  destruct (rewritten_reference_is_fetched (always forbidden) (parses live_m3u8)
              live_m3u8 (js "segment.ts")
              (js "/api/proxy-manifest?url=https%3A%2F%2Fhost%2Fpath%2Fsegment.ts")
              Ho Hp Hl Hm ltac:(vm_compute; reflexivity))
    as [e [target [He [Hd [Ht Hf]]]]].
  exists e, target. split; [rewrite <- He; vm_compute; reflexivity|].
  split; [exact Hd|]. split; [rewrite Ht; vm_compute; reflexivity|].
  exact (Hf None).
Defined.
